(** * In-memory user service (src/index.ts): shallow embedding and properties

    The Express application keeps a module-level object [users] and a counter
    [nextId], validates request bodies with [validateUserData] and serves five
    routes.  This file embeds those parts as Rocq functions over an explicit
    store and proves the properties of the written specification.

    Modelling conventions.
    - A JavaScript string is the list of its UTF-16 code units.
    - Integral JavaScript numbers (ids, the counter, the result of [parseInt],
      the millisecond value of a [Date]) are exact integers; the two agree on
      the safe-integer range, which the counter never leaves in practice.
      [parseInt]'s NaN is [None].
    - A handler is a function from the store to an outcome and a new store;
      a thrown exception is the outcome [Thrown], which Express turns into its
      own 500 response. *)

From Stdlib Require Import ZArith NArith QArith Ascii String List Lia Bool.
From stdpp Require Import base option list gmap sorting.

Local Open Scope Z_scope.

(** ** Strings *)

(** One UTF-16 code unit. *)
Definition code_unit := N.

Definition jsstring := list code_unit.

(** A source-code string literal (ASCII) as a JavaScript string. *)
Definition lit (s : string) : jsstring :=
  List.map N_of_ascii (list_ascii_of_string s).

(** ECMAScript WhiteSpace and LineTerminator code points: the set stripped by
    [String.prototype.trim], skipped by [parseInt] and matched by the regular
    expression escape [\s]. *)
Definition is_ws (c : code_unit) : bool :=
  ((9 <=? c) && (c <=? 13) ||
   (c =? 32) || (c =? 160) || (c =? 5760) ||
   (8192 <=? c) && (c <=? 8202) ||
   (c =? 8232) || (c =? 8233) || (c =? 8239) || (c =? 8287) ||
   (c =? 12288) || (c =? 65279))%N.

(** [TrimString(s, start)]. *)
Fixpoint trim_start (s : jsstring) : jsstring :=
  match s with
  | c :: s' => if is_ws c then trim_start s' else s
  | [] => []
  end.

(** [TrimString(s, end)]. *)
Definition trim_end (s : jsstring) : jsstring :=
  rev (trim_start (rev s)).

(** [String.prototype.trim]. *)
Definition trim (s : jsstring) : jsstring :=
  trim_end (trim_start s).

Definition jsstring_eqb (a b : jsstring) : bool :=
  bool_decide (a = b).

(** ** Regular expressions *)

(** The fragment of the pattern language that the source uses, closed under
    what the matcher needs. *)
Inductive regex : Type :=
| Void : regex
| Eps : regex
| Class (p : code_unit -> bool) : regex
| Alt (r1 r2 : regex) : regex
| Seq (r1 r2 : regex) : regex
| Star (r : regex) : regex.

(** [r+] *)
Definition Plus (r : regex) : regex := Seq r (Star r).

(** A single literal character. *)
Definition Chr (a : ascii) : regex := Class (N.eqb (N_of_ascii a)).

Fixpoint nullable (r : regex) : bool :=
  match r with
  | Void => false
  | Eps => true
  | Class _ => false
  | Alt r1 r2 => nullable r1 || nullable r2
  | Seq r1 r2 => nullable r1 && nullable r2
  | Star _ => true
  end.

(** Derivative of [r] by the code unit [c]. *)
Fixpoint deriv (c : code_unit) (r : regex) : regex :=
  match r with
  | Void => Void
  | Eps => Void
  | Class p => if p c then Eps else Void
  | Alt r1 r2 => Alt (deriv c r1) (deriv c r2)
  | Seq r1 r2 =>
      if nullable r1
      then Alt (Seq (deriv c r1) r2) (deriv c r2)
      else Seq (deriv c r1) r2
  | Star r1 => Seq (deriv c r1) (Star r1)
  end.

(** [/^r$/.test(s)]: without the [m] flag the two anchors pin the match to
    the whole input. *)
Fixpoint regex_test (r : regex) (s : jsstring) : bool :=
  match s with
  | [] => nullable r
  | c :: s' => regex_test (deriv c r) s'
  end.

(** The character class [[^\s@]]. *)
Definition not_ws_at (c : code_unit) : bool :=
  negb (is_ws c || (c =? N_of_ascii "@")%N).

(** The pattern [/^[^\s@]+@[^\s@]+\.[^\s@]+$/] of [validateUserData]. *)
Definition email_regex : regex :=
  Seq (Plus (Class not_ws_at))
    (Seq (Chr "@")
       (Seq (Plus (Class not_ws_at))
          (Seq (Chr ".")
             (Plus (Class not_ws_at))))).

(** ** JavaScript values of a request body *)

(**  What [express.json()] can leave in [req.body] ([undefined] when the
    request carries no JSON body), together with the values its properties
    can hold.  [JObj] lists the own properties of the parsed object. *)
#[local] Unset Elimination Schemes.
Inductive JsValue : Type :=
| JUndefined : JsValue
| JNull : JsValue
| JBool (b : bool) : JsValue
| JNum (x : Q) : JsValue
| JStr (s : jsstring) : JsValue
| JArr (items : list JsValue) : JsValue
| JObj (props : list (jsstring * JsValue)) : JsValue.
#[local] Set Elimination Schemes.

(** Outcome of evaluating code that may throw. *)
Inductive Completion (A : Type) : Type :=
| Normal (a : A) : Completion A
| Throw (e : string) : Completion A.
Arguments Normal {A} a.
Arguments Throw {A} e.

Definition bind {A B : Type} (m : Completion A) (k : A -> Completion B)
  : Completion B :=
  match m with
  | Normal a => k a
  | Throw e => Throw e
  end.

Notation "'let!' x ':=' m 'in' k" := (bind m (fun x => k))
  (at level 10, x name, m at level 100, k at level 200).

(** Own property lookup in a property list. *)
Fixpoint own_prop (props : list (jsstring * JsValue)) (key : jsstring)
  : JsValue :=
  match props with
  | [] => JUndefined
  | (k, v) :: rest => if jsstring_eqb k key then v else own_prop rest key
  end.

(** [data.key] for the keys ["name"] and ["email"]: reading a property of
    [undefined] or [null] throws a TypeError; no prototype of a body value
    carries either key, so everything but an own property is [undefined]. *)
Definition get_prop (data : JsValue) (key : string) : Completion JsValue :=
  match data with
  | JUndefined | JNull => Throw "TypeError"
  | JObj props => Normal (own_prop props (lit key))
  | _ => Normal JUndefined
  end.

(** ToBoolean. *)
Definition truthy (v : JsValue) : bool :=
  match v with
  | JUndefined | JNull => false
  | JBool b => b
  | JNum x => negb (Qeq_bool x 0%Q)
  | JStr s => negb (jsstring_eqb s [])
  | JArr _ | JObj _ => true
  end.

(** [typeof v !== "string"] *)
Definition not_string (v : JsValue) : bool :=
  match v with
  | JStr _ => false
  | _ => true
  end.

(** [v.trim() === ""], evaluated only where [v] is known to be a string. *)
Definition trims_to_empty (v : JsValue) : bool :=
  match v with
  | JStr s => jsstring_eqb (trim s) []
  | _ => false
  end.

(** [/^[^\s@]+@[^\s@]+\.[^\s@]+$/.test(v)], on a string. *)
Definition email_test (v : JsValue) : bool :=
  match v with
  | JStr s => regex_test email_regex s
  | _ => false
  end.

Definition ERR_NAME : string :=
  "Name is required and must be a non-empty string".
Definition ERR_EMAIL_REQUIRED : string :=
  "Email is required and must be a non-empty string".
Definition ERR_EMAIL_FORMAT : string :=
  "Email must be a valid email address".

Record Validation : Type := mkValidation {
  isValid : bool;
  errors : list string
}.

(** [errors.push(msg)] *)
Definition push (errs : list string) (msg : string) : list string :=
  errs ++ [msg].

(** [validateUserData(data)] *)
Definition validateUserData (data : JsValue) : Completion Validation :=
  let errors0 : list string := [] in
  let! name := get_prop data "name" in
  let errors1 :=
    if negb (truthy name) || not_string name || trims_to_empty name
    then push errors0 ERR_NAME
    else errors0 in
  let! email := get_prop data "email" in
  let errors2 :=
    if negb (truthy email) || not_string email || trims_to_empty email
    then push errors1 ERR_EMAIL_REQUIRED
    else if negb (email_test email)
    then push errors1 ERR_EMAIL_FORMAT
    else errors1 in
  Normal {| isValid := (length errors2 =? 0)%nat; errors := errors2 |}.

(** ** [parseInt] *)

(** Value of a code unit as a digit, for radices up to 36. *)
Definition digit_value (c : code_unit) : option Z :=
  if ((48 <=? c) && (c <=? 57))%N then Some (Z.of_N c - 48)
  else if ((97 <=? c) && (c <=? 122))%N then Some (Z.of_N c - 97 + 10)
  else if ((65 <=? c) && (c <=? 90))%N then Some (Z.of_N c - 65 + 10)
  else None.

(** Value of [c] as a radix-[R] digit, if it is one. *)
Definition radix_digit (R : Z) (c : code_unit) : option Z :=
  match digit_value c with
  | Some d => if d <? R then Some d else None
  | None => None
  end.

(** Longest prefix of radix-[R] digits of [s], read left to right with the
    accumulator [acc]; [seen] records whether a digit was consumed. *)
Fixpoint read_digits (R : Z) (s : jsstring) (seen : bool) (acc : Z)
  : option Z :=
  match s with
  | c :: s' =>
      match radix_digit R c with
      | Some d => read_digits R s' true (acc * R + d)
      | None => if seen then Some acc else None
      end
  | [] => if seen then Some acc else None
  end.

Definition is_chr (a : ascii) (c : code_unit) : bool :=
  (c =? N_of_ascii a)%N.

(** Steps 3 and 4 of [parseInt]: an optional sign. *)
Definition split_sign (s : jsstring) : Z * jsstring :=
  match s with
  | c :: s' =>
      if is_chr "-" c then (-1, s')
      else if is_chr "+" c then (1, s')
      else (1, s)
  | [] => (1, s)
  end.

(** Step 7 with [stripPrefix] true: a leading [0x] or [0X] selects radix 16. *)
Definition split_radix (s : jsstring) : Z * jsstring :=
  match s with
  | c0 :: c1 :: s' =>
      if is_chr "0" c0 && (is_chr "x" c1 || is_chr "X" c1)
      then (16, s')
      else (10, s)
  | _ => (10, s)
  end.

(** [parseInt(string)] with no radix argument; [None] is NaN. *)
Definition parseInt (input : jsstring) : option Z :=
  let S0 := trim_start input in
  let '(sign, S1) := split_sign S0 in
  let '(R, S2) := split_radix S1 in
  match read_digits R S2 false 0 with
  | Some mathInt => Some (sign * mathInt)
  | None => None
  end.

(** The reading of the specification: the segment, after leading white space
    and an optional sign, is read as a base-10 integer. *)
Definition parse_base10 (input : jsstring) : option Z :=
  let '(sign, S1) := split_sign (trim_start input) in
  match read_digits 10 S1 false 0 with
  | Some mathInt => Some (sign * mathInt)
  | None => None
  end.

(** A segment starts with a numeric prefix when, after leading white space
    and an optional sign, its first code unit is a decimal digit. *)
Definition has_numeric_prefix (input : jsstring) : bool :=
  match snd (split_sign (trim_start input)) with
  | c :: _ => ((48 <=? c) && (c <=? 57))%N
  | [] => false
  end.

(** The segment carries a hexadecimal prefix after white space and sign. *)
Definition has_hex_prefix (input : jsstring) : bool :=
  Z.eqb (fst (split_radix (snd (split_sign (trim_start input))))) 16.

(** ** The store *)

(** In the handlers the parsed path segment, [id] in the source, is called
    [key], the name [id] being the field of [User]. *)

Record User : Type := mkUser {
  id : Z;
  name : jsstring;
  email : jsstring;
  createdAt : Z
}.

(** The module-level [users] object and [nextId] counter. *)
Record Store : Type := mkStore {
  users : gmap Z User;
  nextId : Z
}.

(** State at module load: [users = {}], [nextId = 1]. *)
Definition initial : Store := {| users := ∅; nextId := 1 |}.

(** ** Requests and responses *)

Inductive Request : Type :=
| GetRoot : Request
| GetUsers : Request
| GetUser (seg : jsstring) : Request
| PostUsers (body : JsValue) : Request
| PutUser (seg : jsstring) (body : JsValue) : Request
| DeleteUser (seg : jsstring) : Request.

Inductive Body : Type :=
| BMessage (message : string) : Body
| BUserList (l : list User) : Body
| BUser (u : User) : Body
| BError (error : string) : Body
| BValidation (error : string) (details : list string) : Body
| BEmpty : Body.

Inductive Outcome : Type :=
| Sent (status : Z) (body : Body) : Outcome
| Thrown (e : string) : Outcome.

(** Status code seen by the client; Express answers an exception with 500. *)
Definition status_of (o : Outcome) : Z :=
  match o with
  | Sent status _ => status
  | Thrown _ => 500
  end.

(** [req.body.key.trim()], reached only after validation has passed. *)
Definition trimmed_prop (data : JsValue) (key : string) : Completion jsstring :=
  let! v := get_prop data key in
  match v with
  | JStr s => Normal (trim s)
  | _ => Throw "TypeError"
  end.

Definition key_le (a b : Z * User) : Prop := a.1 <= b.1.

#[local] Instance key_le_dec : RelDecision key_le.
Proof. intros a b. unfold key_le. apply _. Defined.

(** [Object.values(users)]: integer keys are enumerated in ascending order. *)
Definition object_values (m : gmap Z User) : list User :=
  (merge_sort key_le (map_to_list m)).*2.

(** [app.get("/")] *)
Definition get_root (st : Store) : Outcome * Store :=
  (Sent 200 (BMessage "Welcome to the API"), st).

(** [app.get("/users")] *)
Definition get_users (st : Store) : Outcome * Store :=
  (Sent 200 (BUserList (object_values (users st))), st).

(** [app.get("/users/:id")] *)
Definition get_user (seg : jsstring) (st : Store) : Outcome * Store :=
  match parseInt seg with
  | None => (Sent 400 (BError "Invalid user ID"), st)
  | Some key =>
      match users st !! key with
      | None => (Sent 404 (BError "User not found"), st)
      | Some user => (Sent 200 (BUser user), st)
      end
  end.

(** [app.post("/users")]; [now] is the value of [new Date()]. *)
Definition post_users (now : Z) (body : JsValue) (st : Store)
  : Outcome * Store :=
  match validateUserData body with
  | Throw e => (Thrown e, st)
  | Normal v =>
      if negb (isValid v)
      then (Sent 400 (BValidation "Validation failed" (errors v)), st)
      else
        let new_id := nextId st in
        let st1 := {| users := users st; nextId := nextId st + 1 |} in
        match trimmed_prop body "name" with
        | Throw e => (Thrown e, st1)
        | Normal n =>
            match trimmed_prop body "email" with
            | Throw e => (Thrown e, st1)
            | Normal e =>
                let newUser :=
                  {| id := new_id; name := n; email := e; createdAt := now |} in
                (Sent 201 (BUser newUser),
                 {| users := <[id newUser := newUser]> (users st1);
                    nextId := nextId st1 |})
            end
        end
  end.

(** [app.put("/users/:id")] *)
Definition put_user (seg : jsstring) (body : JsValue) (st : Store)
  : Outcome * Store :=
  match parseInt seg with
  | None => (Sent 400 (BError "Invalid user ID"), st)
  | Some key =>
      match users st !! key with
      | None => (Sent 404 (BError "User not found"), st)
      | Some user =>
          match validateUserData body with
          | Throw e => (Thrown e, st)
          | Normal v =>
              if negb (isValid v)
              then (Sent 400 (BValidation "Validation failed" (errors v)), st)
              else
                match trimmed_prop body "name" with
                | Throw e => (Thrown e, st)
                | Normal n =>
                    match trimmed_prop body "email" with
                    | Throw e => (Thrown e, st)
                    | Normal e =>
                        let updated :=
                          {| id := id user; name := n; email := e;
                             createdAt := createdAt user |} in
                        let st1 :=
                          {| users := <[key := updated]> (users st);
                             nextId := nextId st |} in
                        match users st1 !! key with
                        | Some u => (Sent 200 (BUser u), st1)
                        | None => (Thrown "TypeError", st1)
                        end
                    end
                end
          end
      end
  end.

(** [app.delete("/users/:id")] *)
Definition delete_user (seg : jsstring) (st : Store) : Outcome * Store :=
  match parseInt seg with
  | None => (Sent 400 (BError "Invalid user ID"), st)
  | Some key =>
      match users st !! key with
      | None => (Sent 404 (BError "User not found"), st)
      | Some _ =>
          (Sent 204 BEmpty,
           {| users := delete key (users st); nextId := nextId st |})
      end
  end.

(** Route dispatch. *)
Definition handle (now : Z) (req : Request) (st : Store) : Outcome * Store :=
  match req with
  | GetRoot => get_root st
  | GetUsers => get_users st
  | GetUser seg => get_user seg st
  | PostUsers body => post_users now body st
  | PutUser seg body => put_user seg body st
  | DeleteUser seg => delete_user seg st
  end.

(** A sequence of requests, each with the clock reading at its arrival,
    handled one after the other; the outcomes in order and the final store. *)
Fixpoint run (reqs : list (Z * Request)) (st : Store)
  : list Outcome * Store :=
  match reqs with
  | [] => ([], st)
  | (now, req) :: rest =>
      let '(o, st1) := handle now req st in
      let '(os, st2) := run rest st1 in
      (o :: os, st2)
  end.

(** Id carried by a 201 response. *)
Definition created_id (o : Outcome) : option Z :=
  match o with
  | Sent 201 (BUser u) => Some (id u)
  | _ => None
  end.

(** Ids returned by the successful creates of a run, in order. *)
Definition created_ids (os : list Outcome) : list Z :=
  omap created_id os.

(** ** Specification-level notions *)

(** Declarative meaning of a pattern: the strings it denotes. *)
Inductive matches : regex -> jsstring -> Prop :=
| MEps : matches Eps []
| MClass p c : p c = true -> matches (Class p) [c]
| MAltL r1 r2 s : matches r1 s -> matches (Alt r1 r2) s
| MAltR r1 r2 s : matches r2 s -> matches (Alt r1 r2) s
| MSeq r1 r2 s1 s2 :
    matches r1 s1 -> matches r2 s2 -> matches (Seq r1 r2) (s1 ++ s2)
| MStarNil r : matches (Star r) []
| MStarApp r s1 s2 :
    matches r s1 -> matches (Star r) s2 -> matches (Star r) (s1 ++ s2).

(** A character that is neither white space nor ["@"]. *)
Definition plain_char (c : code_unit) : Prop :=
  is_ws c = false /\ c <> N_of_ascii "@".

(** One or more plain characters. *)
Definition plain_run (s : jsstring) : Prop :=
  s <> [] /\ Forall plain_char s.

(** The email shape in the words of the specification: one or more plain
    characters, ["@"], one or more plain characters, ["."], one or more plain
    characters. *)
Definition email_pattern (s : jsstring) : Prop :=
  exists l d t : jsstring,
    s = l ++ [N_of_ascii "@"] ++ d ++ [N_of_ascii "."] ++ t /\
    plain_run l /\ plain_run d /\ plain_run t.

(** The decimal numeral of an integer, most significant digit first: the
    segment a client writes in the path for the id [k]. *)
Definition digit_char (d : Z) : code_unit := Z.to_N (48 + d).

Fixpoint decimal_digits (fuel : nat) (n : Z) (acc : jsstring) : jsstring :=
  match fuel with
  | O => acc
  | S fuel' =>
      let acc' := digit_char (n mod 10) :: acc in
      if n <? 10 then acc' else decimal_digits fuel' (n / 10) acc'
  end.

Definition decimal_nat (n : Z) : jsstring :=
  decimal_digits (S (Z.to_nat (Z.log2 n))) n [].

Definition decimal (k : Z) : jsstring :=
  if k <? 0 then N_of_ascii "-" :: decimal_nat (- k) else decimal_nat k.

Definition is_decimal_digit (c : code_unit) : Prop := (48 <= c <= 57)%N.

(** A field value that is present, of string type and non-empty after
    trimming. *)
Definition nonempty_string (v : JsValue) : bool :=
  match v with
  | JStr s => negb (jsstring_eqb (trim s) [])
  | _ => false
  end.

(** The error list of the name field on its own. *)
Definition name_errors (v : JsValue) : list string :=
  if nonempty_string v then [] else [ERR_NAME].

(** The error list of the email field on its own. *)
Definition email_errors (v : JsValue) : list string :=
  if nonempty_string v
  then if email_test v then [] else [ERR_EMAIL_FORMAT]
  else [ERR_EMAIL_REQUIRED].

(** A JSON object body with the two fields. *)
Definition user_body (n e : JsValue) : JsValue :=
  JObj [(lit "name", n); (lit "email", e)].

(** ** Well-formed stores *)

(** The string does not begin with a white-space character. *)
Definition starts_clean (s : jsstring) : Prop :=
  match s with
  | c :: _ => is_ws c = false
  | [] => True
  end.

(** No white space at either end. *)
Definition trimmed (s : jsstring) : Prop :=
  starts_clean s /\ starts_clean (rev s).

(** What holds of the user stored at the key [k] while the counter is
    [bound]. *)
Definition user_ok (bound k : Z) (u : User) : Prop :=
  id u = k /\ 1 <= k < bound /\
  name u <> [] /\ trimmed (name u) /\ email_pattern (email u).

Definition store_ok (st : Store) : Prop :=
  1 <= nextId st /\
  forall k u, users st !! k = Some u -> user_ok (nextId st) k u.

(** The body is [undefined] or [null]. *)
Definition nullish (v : JsValue) : Prop := v = JUndefined \/ v = JNull.

(** The user list carried by a response of [GET /users]. *)
Definition listed (o : Outcome) : list User :=
  match o with
  | Sent _ (BUserList l) => l
  | _ => []
  end.

(** How many of the outcomes carry the status [code]. *)
Definition answered (code : Z) (os : list Outcome) : Z :=
  Z.of_nat (length (List.filter (fun o => status_of o =? code) os)).

(** * Properties *)

(** ** The matcher computes the denotation *)

Section RegexCorrect.

Lemma nullable_matches (r : regex) : nullable r = true <-> matches r [].
Proof.
  induction r as [| |p|r1 IH1 r2 IH2|r1 IH1 r2 IH2|r IH]; simpl; split;
    try discriminate; try (intros; constructor; fail).
  - inversion 1.
  - inversion 1.
  - rewrite orb_true_iff. intros [H|H].
    + apply MAltL, IH1, H.
    + apply MAltR, IH2, H.
  - inversion 1; subst; rewrite orb_true_iff; [left; apply IH1|right; apply IH2];
      assumption.
  - rewrite andb_true_iff. intros [H1 H2].
    change (@nil code_unit) with (@nil code_unit ++ []).
    constructor; [apply IH1|apply IH2]; assumption.
  - inversion 1 as [| | | |? ? s1 s2 H1 H2 E1 E| |]; subst.
    apply app_eq_nil in E as [-> ->].
    rewrite andb_true_iff. split; [apply IH1|apply IH2]; assumption.
Qed.

Lemma star_cons_inv (r : regex) (c : code_unit) (s : jsstring) :
  matches (Star r) (c :: s) ->
  exists s1 s2, s = s1 ++ s2 /\ matches r (c :: s1) /\ matches (Star r) s2.
Proof.
  intros H. remember (Star r) as r' eqn:Er. remember (c :: s) as w eqn:Ew.
  revert s Ew. induction H as [| | | | | |r0 s1 s2 H1 _ H2 IH2];
    intros t Ew; try discriminate.
  injection Er as ->. destruct s1 as [|c1 s1]; simpl in Ew.
  - apply IH2; [reflexivity | assumption].
  - injection Ew as Ec Et. subst c1 t. exists s1, s2. auto.
Qed.

Lemma deriv_sound (c : code_unit) (r : regex) :
  forall s, matches (deriv c r) s -> matches r (c :: s).
Proof.
  induction r as [| |p|r1 IH1 r2 IH2|r1 IH1 r2 IH2|r IH]; simpl; intros s H.
  - inversion H.
  - inversion H.
  - destruct (p c) eqn:Hp; inversion H; subst. constructor. exact Hp.
  - inversion H; subst; [apply MAltL|apply MAltR]; auto.
  - assert (Hseq : forall w, matches (Seq (deriv c r1) r2) w ->
                             matches (Seq r1 r2) (c :: w)).
    { intros w Hw. inversion Hw as [| | | |? ? s1 s2 H1 H2| |]; subst.
      change (c :: s1 ++ s2) with ((c :: s1) ++ s2). constructor; auto. }
    destruct (nullable r1) eqn:Hn; [|auto].
    inversion H; subst; [auto|].
    change (c :: s) with ([] ++ c :: s).
    constructor; [apply nullable_matches, Hn | auto].
  - inversion H as [| | | |? ? s1 s2 H1 H2| |]; subst.
    change (c :: s1 ++ s2) with ((c :: s1) ++ s2). apply MStarApp; auto.
Qed.

Lemma deriv_complete (c : code_unit) (r : regex) :
  forall s, matches r (c :: s) -> matches (deriv c r) s.
Proof.
  induction r as [| |p|r1 IH1 r2 IH2|r1 IH1 r2 IH2|r IH]; simpl; intros s H.
  - inversion H.
  - inversion H.
  - inversion H as [|? ? Hp| | | | |]; subst. rewrite Hp. constructor.
  - inversion H; subst; [apply MAltL|apply MAltR]; auto.
  - inversion H as [| | | |? ? s1 s2 H1 H2 E1 E| |]; subst.
    destruct s1 as [|c1 s1]; simpl in E.
    + subst s2. apply nullable_matches in H1. rewrite H1.
      apply MAltR; auto.
    + injection E as Ec Et. subst c1 s.
      assert (matches (Seq (deriv c r1) r2) (s1 ++ s2)) by (constructor; auto).
      destruct (nullable r1); [apply MAltL|]; assumption.
  - apply star_cons_inv in H as (s1 & s2 & -> & H1 & H2).
    constructor; auto.
Qed.

(** The derivative matcher accepts exactly the denoted strings. *)
Lemma regex_test_matches (s : jsstring) :
  forall r, regex_test r s = true <-> matches r s.
Proof.
  induction s as [|c s IH]; intros r; simpl.
  - apply nullable_matches.
  - rewrite IH. split; [apply deriv_sound | apply deriv_complete].
Qed.

End RegexCorrect.

(** ** The email pattern *)

Section EmailPattern.

Lemma matches_seq (r1 r2 : regex) (s : jsstring) :
  matches (Seq r1 r2) s <->
  exists s1 s2, s = s1 ++ s2 /\ matches r1 s1 /\ matches r2 s2.
Proof.
  split.
  - inversion 1; subst; eauto.
  - intros (s1 & s2 & -> & H1 & H2). constructor; assumption.
Qed.

Lemma matches_class (p : code_unit -> bool) (s : jsstring) :
  matches (Class p) s <-> exists c, s = [c] /\ p c = true.
Proof.
  split.
  - inversion 1; subst; eauto.
  - intros (c & -> & Hc). constructor; assumption.
Qed.

Lemma matches_chr (a : ascii) (s : jsstring) :
  matches (Chr a) s <-> s = [N_of_ascii a].
Proof.
  unfold Chr. rewrite matches_class. split.
  - intros (c & -> & Hc). apply N.eqb_eq in Hc. rewrite Hc. reflexivity.
  - intros ->. eexists; split; [reflexivity | apply N.eqb_refl].
Qed.

Lemma matches_star_class (p : code_unit -> bool) (s : jsstring) :
  matches (Star (Class p)) s <-> Forall (fun c => p c = true) s.
Proof.
  split.
  - intros H. remember (Star (Class p)) as r eqn:Er.
    induction H as [| | | | | |r0 s1 s2 H1 _ H2 IH2]; try discriminate.
    + constructor.
    + injection Er as ->. apply matches_class in H1 as (c & -> & Hc).
      simpl. constructor; auto.
  - induction 1 as [|c s Hc _ IH].
    + constructor.
    + change (c :: s) with ([c] ++ s). apply MStarApp; [|assumption].
      constructor; assumption.
Qed.

Lemma matches_plus_class (p : code_unit -> bool) (s : jsstring) :
  matches (Plus (Class p)) s <-> s <> [] /\ Forall (fun c => p c = true) s.
Proof.
  unfold Plus. rewrite matches_seq. split.
  - intros (s1 & s2 & -> & H1 & H2).
    apply matches_class in H1 as (c & -> & Hc).
    apply matches_star_class in H2. split; [discriminate|].
    simpl. constructor; assumption.
  - intros [Hne H]. destruct H as [|c s Hc H]; [congruence|].
    exists [c], s. repeat split.
    + constructor; assumption.
    + apply matches_star_class; assumption.
Qed.

Lemma not_ws_at_plain (c : code_unit) : not_ws_at c = true <-> plain_char c.
Proof.
  unfold not_ws_at, plain_char.
  rewrite negb_true_iff, orb_false_iff, N.eqb_neq. reflexivity.
Qed.

Lemma matches_plain_run (s : jsstring) :
  matches (Plus (Class not_ws_at)) s <-> plain_run s.
Proof.
  rewrite matches_plus_class. unfold plain_run.
  rewrite !Forall_forall. setoid_rewrite not_ws_at_plain. reflexivity.
Qed.

Lemma matches_email_regex (s : jsstring) :
  matches email_regex s <-> email_pattern s.
Proof.
  unfold email_regex, email_pattern. split.
  - intros H.
    apply matches_seq in H as (l & s1 & -> & Hl & H).
    apply matches_seq in H as (a & s2 & -> & Ha & H).
    apply matches_seq in H as (d & s3 & -> & Hd & H).
    apply matches_seq in H as (b & t & -> & Hb & Ht).
    apply matches_chr in Ha as ->. apply matches_chr in Hb as ->.
    exists l, d, t. rewrite <- !matches_plain_run. auto.
  - intros (l & d & t & -> & Hl & Hd & Ht).
    rewrite <- matches_plain_run in Hl, Hd, Ht.
    repeat (constructor; try assumption); apply matches_chr; reflexivity.
Qed.

Lemma email_regex_test_pattern (s : jsstring) :
  regex_test email_regex s = true <-> email_pattern s.
Proof. rewrite regex_test_matches. apply matches_email_regex. Qed.

End EmailPattern.

(** ** Trimming *)

Section Trim.

Lemma trim_start_head (c : code_unit) (s : jsstring) :
  is_ws c = false -> trim_start (c :: s) = c :: s.
Proof. intros H. simpl. rewrite H. reflexivity. Qed.

Lemma trim_start_no_ws (s : jsstring) :
  Forall (fun c => is_ws c = false) s -> trim_start s = s.
Proof. destruct 1; [reflexivity | apply trim_start_head; assumption]. Qed.

Lemma trim_no_ws (s : jsstring) :
  Forall (fun c => is_ws c = false) s -> trim s = s.
Proof.
  intros H. unfold trim, trim_end. rewrite (trim_start_no_ws s H).
  rewrite trim_start_no_ws; [apply rev_involutive|].
  apply List.Forall_rev. assumption.
Qed.

Lemma plain_run_no_ws (s : jsstring) :
  plain_run s -> Forall (fun c => is_ws c = false) s.
Proof. intros [_ H]. eapply Forall_impl; [exact H|]. intros c [Hc _]. exact Hc. Qed.

Lemma email_pattern_no_ws (s : jsstring) :
  email_pattern s -> Forall (fun c => is_ws c = false) s.
Proof.
  intros (l & d & t & -> & Hl & Hd & Ht).
  repeat (apply Forall_app; split); auto using plain_run_no_ws;
    repeat constructor.
Qed.

End Trim.

(** ** Validation *)

Section Validation.

Lemma jsstring_eqb_true (a b : jsstring) : jsstring_eqb a b = true <-> a = b.
Proof. unfold jsstring_eqb. apply bool_decide_eq_true. Qed.

Lemma jsstring_eqb_false (a b : jsstring) : jsstring_eqb a b = false <-> a <> b.
Proof. unfold jsstring_eqb. apply bool_decide_eq_false. Qed.

(** The three-way guard of the source is the negation of "non-empty
    string". *)
Lemma guard_nonempty_string (v : JsValue) :
  negb (truthy v) || not_string v || trims_to_empty v
  = negb (nonempty_string v).
Proof.
  destruct v as [| |b|x|s|items|props]; simpl;
    try reflexivity; try (rewrite orb_true_r; reflexivity).
  rewrite orb_false_r, negb_involutive, negb_involutive.
  destruct (jsstring_eqb s []) eqn:E; [|reflexivity].
  apply jsstring_eqb_true in E. subst s. reflexivity.
Qed.

Lemma validateUserData_fields (data n e : JsValue) :
  get_prop data "name" = Normal n ->
  get_prop data "email" = Normal e ->
  validateUserData data =
    Normal {| isValid := (length (name_errors n ++ email_errors e) =? 0)%nat;
              errors := name_errors n ++ email_errors e |}.
Proof.
  intros Hn He. unfold validateUserData. rewrite Hn. simpl. rewrite He. simpl.
  rewrite !guard_nonempty_string. unfold name_errors, email_errors, push.
  destruct (nonempty_string n), (nonempty_string e), (email_test e);
    reflexivity.
Qed.

Lemma validateUserData_normal (data : JsValue) (v : Validation) :
  validateUserData data = Normal v ->
  exists n e, get_prop data "name" = Normal n /\
              get_prop data "email" = Normal e.
Proof.
  unfold validateUserData.
  destruct (get_prop data "name") as [n|]; simpl; [|discriminate].
  destruct (get_prop data "email") as [e|]; simpl; [|discriminate].
  eauto.
Qed.

Lemma nonempty_string_inv (v : JsValue) :
  nonempty_string v = true -> exists s, v = JStr s /\ trim s <> [].
Proof.
  destruct v; simpl; try discriminate.
  rewrite negb_true_iff, jsstring_eqb_false. eauto.
Qed.

(** A body that passes validation carries a name that does not trim to the
    empty string and an email that the pattern accepts. *)
Lemma valid_body_fields (data : JsValue) (v : Validation) :
  validateUserData data = Normal v ->
  isValid v = true ->
  exists n e, get_prop data "name" = Normal (JStr n) /\
              get_prop data "email" = Normal (JStr e) /\
              trim n <> [] /\ regex_test email_regex e = true.
Proof.
  intros Hv Hok.
  destruct (validateUserData_normal _ _ Hv) as (n & e & Hn & He).
  rewrite (validateUserData_fields _ _ _ Hn He) in Hv.
  injection Hv as <-. simpl in Hok.
  unfold name_errors, email_errors in Hok.
  destruct (nonempty_string n) eqn:En; [|discriminate].
  destruct (nonempty_string e) eqn:Ee; [|discriminate].
  destruct (email_test e) eqn:Et; [|discriminate].
  apply nonempty_string_inv in En as (sn & -> & Hsn).
  apply nonempty_string_inv in Ee as (se & -> & _).
  exists sn, se. auto.
Qed.

Lemma valid_body_trimmed (data : JsValue) (v : Validation) :
  validateUserData data = Normal v ->
  isValid v = true ->
  exists n e, get_prop data "name" = Normal (JStr n) /\
              get_prop data "email" = Normal (JStr e) /\
              trimmed_prop data "name" = Normal (trim n) /\
              trimmed_prop data "email" = Normal (trim e).
Proof.
  intros Hv Hok.
  destruct (valid_body_fields _ _ Hv Hok) as (n & e & Hn & He & _).
  exists n, e. unfold trimmed_prop. rewrite Hn, He. auto.
Qed.

(** A string value raises no email error exactly when it has the email
    shape. *)
Lemma email_errors_none (s : jsstring) :
  email_errors (JStr s) = [] <-> email_pattern s.
Proof.
  rewrite <- email_regex_test_pattern. unfold email_errors. simpl.
  destruct (regex_test email_regex s) eqn:Hre.
  - apply email_regex_test_pattern in Hre as Hpat.
    rewrite (trim_no_ws s (email_pattern_no_ws s Hpat)).
    destruct Hpat as (l & d & t & -> & [Hl _] & _).
    destruct l as [|c l]; [congruence|]. simpl. tauto.
  - destruct (negb (jsstring_eqb (trim s) [])); split; discriminate.
Qed.

End Validation.

(** ** The handlers, case by case *)

Section Handlers.

Variables (now : Z) (st : Store).

Lemma post_users_throw (body : JsValue) (e : string) :
  validateUserData body = Throw e ->
  post_users now body st = (Thrown e, st).
Proof. intros H. unfold post_users. rewrite H. reflexivity. Qed.

Lemma post_users_invalid (body : JsValue) (v : Validation) :
  validateUserData body = Normal v ->
  isValid v = false ->
  post_users now body st =
    (Sent 400 (BValidation "Validation failed" (errors v)), st).
Proof. intros H Hv. unfold post_users. rewrite H, Hv. reflexivity. Qed.

Lemma post_users_valid (body : JsValue) (v : Validation) :
  validateUserData body = Normal v ->
  isValid v = true ->
  exists n e,
    get_prop body "name" = Normal (JStr n) /\
    get_prop body "email" = Normal (JStr e) /\
    let newUser := {| id := nextId st; name := trim n; email := trim e;
                      createdAt := now |} in
    post_users now body st =
      (Sent 201 (BUser newUser),
       {| users := <[nextId st := newUser]> (users st);
          nextId := nextId st + 1 |}).
Proof.
  intros H Hv.
  destruct (valid_body_trimmed _ _ H Hv) as (n & e & Hn & He & Tn & Te).
  exists n, e. repeat split; try assumption.
  unfold post_users. rewrite H, Hv, Tn, Te. reflexivity.
Qed.

Lemma put_user_invalid (seg : jsstring) (key : Z) (u : User)
      (body : JsValue) (v : Validation) :
  parseInt seg = Some key ->
  users st !! key = Some u ->
  validateUserData body = Normal v ->
  isValid v = false ->
  put_user seg body st =
    (Sent 400 (BValidation "Validation failed" (errors v)), st).
Proof.
  intros Hp Hu H Hv. unfold put_user. rewrite Hp, Hu, H, Hv. reflexivity.
Qed.

Lemma put_user_valid (seg : jsstring) (key : Z) (u : User)
      (body : JsValue) (v : Validation) :
  parseInt seg = Some key ->
  users st !! key = Some u ->
  validateUserData body = Normal v ->
  isValid v = true ->
  exists n e,
    get_prop body "name" = Normal (JStr n) /\
    get_prop body "email" = Normal (JStr e) /\
    let updated := {| id := id u; name := trim n; email := trim e;
                      createdAt := createdAt u |} in
    put_user seg body st =
      (Sent 200 (BUser updated),
       {| users := <[key := updated]> (users st); nextId := nextId st |}).
Proof.
  intros Hp Hu H Hv.
  destruct (valid_body_trimmed _ _ H Hv) as (n & e & Hn & He & Tn & Te).
  exists n, e. repeat split; try assumption.
  unfold put_user. rewrite Hp, Hu, H, Hv, Tn, Te. simpl.
  rewrite lookup_insert_eq. reflexivity.
Qed.

(** Every handler leaves the counter alone, except a successful create,
    which returns its value and advances it by one. *)
Lemma handle_counter (req : Request) :
  match created_id (handle now req st).1 with
  | Some i => i = nextId st /\ nextId (handle now req st).2 = nextId st + 1
  | None => nextId (handle now req st).2 = nextId st
  end.
Proof.
  destruct req as [| |seg|body|seg body|seg]; simpl.
  - reflexivity.
  - reflexivity.
  - unfold get_user. destruct (parseInt seg) as [key|]; [|reflexivity].
    destruct (users st !! key); reflexivity.
  - destruct (validateUserData body) as [v|e] eqn:H.
    + destruct (isValid v) eqn:Hv.
      * destruct (post_users_valid _ _ H Hv) as (n & e & _ & _ & ->).
        simpl. auto.
      * rewrite (post_users_invalid _ _ H Hv). reflexivity.
    + rewrite (post_users_throw _ _ H). reflexivity.
  - destruct (parseInt seg) as [key|] eqn:Hp;
      [|unfold put_user; rewrite Hp; reflexivity].
    destruct (users st !! key) as [u|] eqn:Hu;
      [|unfold put_user; rewrite Hp, Hu; reflexivity].
    destruct (validateUserData body) as [v|e] eqn:H;
      [|unfold put_user; rewrite Hp, Hu, H; reflexivity].
    destruct (isValid v) eqn:Hv.
    + destruct (put_user_valid _ _ _ _ _ Hp Hu H Hv) as (n & e & _ & _ & ->).
      reflexivity.
    + rewrite (put_user_invalid _ _ _ _ _ Hp Hu H Hv). reflexivity.
  - unfold delete_user. destruct (parseInt seg) as [key|]; [|reflexivity].
    destruct (users st !! key); reflexivity.
Qed.

End Handlers.

(** ** Runs *)

Section Runs.

Lemma run_cons (now : Z) (req : Request) (rest : list (Z * Request))
      (st : Store) :
  run ((now, req) :: rest) st =
    ((handle now req st).1 :: (run rest (handle now req st).2).1,
     (run rest (handle now req st).2).2).
Proof.
  simpl. destruct (handle now req st) as [o st1]. simpl.
  destruct (run rest st1) as [os st2]. reflexivity.
Qed.

Lemma created_ids_cons (o : Outcome) (os : list Outcome) :
  created_ids (o :: os) =
    match created_id o with
    | Some i => i :: created_ids os
    | None => created_ids os
    end.
Proof. reflexivity. Qed.

(** The ids created by a run are the consecutive counter values from the
    counter's value at the start. *)
Lemma run_created_ids (reqs : list (Z * Request)) :
  forall st,
    created_ids (run reqs st).1 =
      seqZ (nextId st) (Z.of_nat (length (created_ids (run reqs st).1))).
Proof.
  induction reqs as [|[now req] rest IH]; intros st.
  - reflexivity.
  - rewrite run_cons. cbn [fst]. rewrite created_ids_cons.
    pose proof (handle_counter now st req) as Hc.
    specialize (IH (handle now req st).2).
    destruct (created_id (handle now req st).1) as [i|].
    + destruct Hc as [-> Hn]. cbn [length].
      rewrite seqZ_cons by lia. f_equal.
      rewrite IH at 1. rewrite Hn. f_equal; lia.
    + rewrite IH at 1. rewrite Hc. reflexivity.
Qed.

Lemma seqZ_strictly_sorted (n : nat) :
  forall m, StronglySorted Z.lt (seqZ m (Z.of_nat n)).
Proof.
  induction n as [|n IH]; intros m.
  - constructor.
  - rewrite seqZ_cons by lia. constructor.
    + replace (Z.pred (Z.of_nat (S n))) with (Z.of_nat n) by lia. apply IH.
    + apply Forall_seqZ. lia.
Qed.

End Runs.

(** ** Parsing the path segment *)

Section ParseInt.

Lemma radix_digit_10_none (c : code_unit) :
  ((48 <=? c) && (c <=? 57))%N = false -> radix_digit 10 c = None.
Proof.
  intros H. unfold radix_digit, digit_value. rewrite H.
  destruct ((97 <=? c) && (c <=? 122))%N eqn:E1.
  - apply andb_true_iff in E1 as [A _]. apply N.leb_le in A.
    destruct (Z.ltb_spec (Z.of_N c - 97 + 10) 10); [lia | reflexivity].
  - destruct ((65 <=? c) && (c <=? 90))%N eqn:E2; [|reflexivity].
    apply andb_true_iff in E2 as [A _]. apply N.leb_le in A.
    destruct (Z.ltb_spec (Z.of_N c - 65 + 10) 10); [lia | reflexivity].
Qed.

Lemma split_radix_not_zero (c : code_unit) (s : jsstring) :
  is_chr "0" c = false -> split_radix (c :: s) = (10, c :: s).
Proof. intros H. destruct s; simpl; [reflexivity | rewrite H; reflexivity]. Qed.

Lemma split_radix_cases (s : jsstring) :
  split_radix s = (10, s) \/ exists s', split_radix s = (16, s').
Proof.
  destruct s as [|c0 [|c1 s']]; simpl; auto.
  destruct (is_chr "0" c0 && (is_chr "x" c1 || is_chr "X" c1)); eauto.
Qed.

(** Without a hexadecimal prefix the segment is read in base 10. *)
Lemma parseInt_no_hex (seg : jsstring) :
  has_hex_prefix seg = false -> parseInt seg = parse_base10 seg.
Proof.
  unfold has_hex_prefix, parseInt, parse_base10.
  destruct (split_sign (trim_start seg)) as [sign S1]. simpl.
  destruct (split_radix_cases S1) as [-> | [s' ->]]; simpl.
  - reflexivity.
  - discriminate.
Qed.

(** A segment with no numeric prefix parses to NaN. *)
Lemma parseInt_no_numeric_prefix (seg : jsstring) :
  has_numeric_prefix seg = false -> parseInt seg = None.
Proof.
  unfold has_numeric_prefix, parseInt.
  destruct (split_sign (trim_start seg)) as [sign S1]. simpl.
  destruct S1 as [|c s]; intros H.
  - reflexivity.
  - rewrite split_radix_not_zero.
    + simpl. rewrite (radix_digit_10_none c H). reflexivity.
    + unfold is_chr. apply N.eqb_neq. intros ->. discriminate.
Qed.

Lemma nan_is_400 (seg : jsstring) (body : JsValue) (st : Store) :
  parseInt seg = None ->
  get_user seg st = (Sent 400 (BError "Invalid user ID"), st) /\
  put_user seg body st = (Sent 400 (BError "Invalid user ID"), st) /\
  delete_user seg st = (Sent 400 (BError "Invalid user ID"), st).
Proof.
  intros H. unfold get_user, put_user, delete_user. rewrite H. auto.
Qed.

End ParseInt.

(** ** Decimal numerals *)

Section Decimal.

Lemma digit_char_digit (d : Z) :
  0 <= d < 10 -> is_decimal_digit (digit_char d).
Proof. unfold is_decimal_digit, digit_char. lia. Qed.

Lemma radix_digit_char (d : Z) :
  0 <= d < 10 -> radix_digit 10 (digit_char d) = Some d.
Proof.
  intros H. unfold radix_digit, digit_value, digit_char.
  replace ((48 <=? Z.to_N (48 + d)) && (Z.to_N (48 + d) <=? 57))%N with true.
  - replace (Z.of_N (Z.to_N (48 + d)) - 48) with d by lia.
    destruct (Z.ltb_spec d 10); [reflexivity | lia].
  - symmetry. apply andb_true_iff. split; apply N.leb_le; lia.
Qed.

Lemma decimal_digits_step (fuel : nat) (n : Z) (acc : jsstring) :
  decimal_digits (S fuel) n acc =
    if n <? 10 then digit_char (n mod 10) :: acc
    else decimal_digits fuel (n / 10) (digit_char (n mod 10) :: acc).
Proof. reflexivity. Qed.

Lemma read_digit_char (d : Z) (s : jsstring) (seen : bool) (a : Z) :
  0 <= d < 10 ->
  read_digits 10 (digit_char d :: s) seen a = read_digits 10 s true (a * 10 + d).
Proof. intros H. simpl. rewrite (radix_digit_char d H). reflexivity. Qed.

Lemma decimal_digits_read (fuel : nat) :
  forall n acc a seen,
    0 <= n < 2 ^ Z.of_nat (S fuel) ->
    exists v, read_digits 10 (decimal_digits (S fuel) n acc) seen a =
                read_digits 10 acc true v /\
              (a = 0 -> v = n).
Proof.
  induction fuel as [|fuel IH]; intros n acc a seen Hn;
    rewrite decimal_digits_step; destruct (Z.ltb_spec n 10) as [Hlt|Hge].
  - exists (a * 10 + n). rewrite Z.mod_small by lia.
    split; [apply read_digit_char; lia | lia].
  - change (2 ^ Z.of_nat 1) with 2 in Hn. lia.
  - exists (a * 10 + n). rewrite Z.mod_small by lia.
    split; [apply read_digit_char; lia | lia].
  - assert (Hdiv : 0 <= n / 10 < 2 ^ Z.of_nat (S fuel)).
    { rewrite (Nat2Z.inj_succ (S fuel)), Z.pow_succ_r in Hn by lia.
      split; [apply Z.div_pos; lia|].
      apply Z.div_lt_upper_bound; lia. }
    destruct (IH (n / 10) (digit_char (n mod 10) :: acc) a seen Hdiv)
      as (v & Hv & Hv0).
    exists (v * 10 + n mod 10). split.
    + rewrite Hv. apply read_digit_char. apply Z.mod_pos_bound. lia.
    + intros Ha. rewrite (Hv0 Ha). pose proof (Z.div_mod n 10). lia.
Qed.

Lemma decimal_digits_all (fuel : nat) :
  forall n acc,
    Forall is_decimal_digit acc ->
    Forall is_decimal_digit (decimal_digits fuel n acc).
Proof.
  induction fuel as [|fuel IH]; intros n acc Hacc; [exact Hacc|].
  rewrite decimal_digits_step.
  assert (Hd : Forall is_decimal_digit (digit_char (n mod 10) :: acc)).
  { constructor; [|exact Hacc]. apply digit_char_digit, Z.mod_pos_bound. lia. }
  destruct (n <? 10); [exact Hd | apply IH, Hd].
Qed.

Lemma log2_fuel (n : Z) :
  0 <= n -> 0 <= n < 2 ^ Z.of_nat (S (Z.to_nat (Z.log2 n))).
Proof.
  intros Hn. split; [exact Hn|].
  rewrite Nat2Z.inj_succ, Z2Nat.id by apply Z.log2_nonneg.
  destruct (Z.eq_dec n 0) as [->|Hne]; [reflexivity|].
  apply Z.log2_spec. lia.
Qed.

Lemma digit_not_ws (c : code_unit) : is_decimal_digit c -> is_ws c = false.
Proof.
  unfold is_decimal_digit, is_ws. intros Hc.
  repeat (apply orb_false_iff; split);
    try (apply andb_false_iff); try (apply N.eqb_neq; lia).
  - right. apply N.leb_gt. lia.
  - left. apply N.leb_gt. lia.
Qed.

Lemma digit_not_chr (a : ascii) (c : code_unit) :
  is_decimal_digit c ->
  (N_of_ascii a < 48 \/ 57 < N_of_ascii a)%N ->
  is_chr a c = false.
Proof. unfold is_decimal_digit, is_chr. intros Hc Ha. apply N.eqb_neq. lia. Qed.

Lemma split_sign_digits (c : code_unit) (s : jsstring) :
  is_decimal_digit c -> split_sign (c :: s) = (1, c :: s).
Proof.
  intros Hc. unfold split_sign.
  rewrite !(digit_not_chr _ c Hc) by (simpl; lia). reflexivity.
Qed.

Lemma split_radix_digits (s : jsstring) :
  Forall is_decimal_digit s -> split_radix s = (10, s).
Proof.
  intros Hs. destruct Hs as [|c0 s Hc0 Hs]; [reflexivity|].
  destruct Hs as [|c1 s Hc1 Hs]; [reflexivity|].
  unfold split_radix.
  rewrite !(digit_not_chr _ c1 Hc1) by (simpl; lia).
  rewrite andb_false_r. reflexivity.
Qed.

Lemma decimal_nat_digits (n : Z) : Forall is_decimal_digit (decimal_nat n).
Proof. apply decimal_digits_all. constructor. Qed.

Lemma decimal_nat_read (n : Z) :
  0 <= n -> read_digits 10 (decimal_nat n) false 0 = Some n.
Proof.
  intros Hn. unfold decimal_nat.
  destruct (decimal_digits_read _ n [] 0 false (log2_fuel n Hn))
    as (v & -> & Hv).
  simpl. rewrite (Hv eq_refl). reflexivity.
Qed.

(** The decimal numeral of an integer parses back to that integer. *)
Lemma parseInt_decimal (k : Z) : parseInt (decimal k) = Some k.
Proof.
  unfold decimal, parseInt. destruct (Z.ltb_spec k 0) as [Hneg|Hpos].
  - rewrite trim_start_head by reflexivity.
    change (split_sign (N_of_ascii "-" :: decimal_nat (- k)))
      with (-1, decimal_nat (- k)).
    cbv beta iota.
    rewrite (split_radix_digits _ (decimal_nat_digits (- k))).
    rewrite decimal_nat_read by lia. f_equal. lia.
  - pose proof (decimal_nat_digits k) as Hd.
    destruct (decimal_nat k) as [|c s] eqn:E.
    + pose proof (decimal_nat_read k Hpos) as Hr. rewrite E in Hr.
      discriminate Hr.
    + inversion Hd as [|? ? Hc Hs]; subst.
      rewrite trim_start_head by (apply digit_not_ws, Hc).
      rewrite (split_sign_digits c s Hc). cbv beta iota.
      rewrite (split_radix_digits _ Hd).
      rewrite <- E, decimal_nat_read by lia. f_equal. lia.
Qed.

End Decimal.

(** ** Identifier allocation *)

Section Allocation.

Lemma run_nextId (reqs : list (Z * Request)) :
  forall st,
    nextId (run reqs st).2 =
      nextId st + Z.of_nat (length (created_ids (run reqs st).1)).
Proof.
  induction reqs as [|[now req] rest IH]; intros st.
  - simpl. lia.
  - rewrite run_cons. cbn [fst snd]. rewrite created_ids_cons, IH.
    pose proof (handle_counter now st req) as Hc.
    destruct (created_id (handle now req st).1) as [i|].
    + destruct Hc as [_ ->]. cbn [length]. lia.
    + rewrite Hc. lia.
Qed.

End Allocation.

(** C1: ids come from a strictly increasing counter that starts at 1.  For
    every sequence of requests handled from the initial store, the ids
    returned by its successful creates are 1, 2, ..., N in this order, hence
    strictly increasing and pairwise distinct; and whatever requests follow
    (deletions included), every id created later is larger than every id
    created before, so no id is handed out twice. *)
Theorem ids_strictly_increasing (reqs1 reqs2 : list (Z * Request)) :
  let r1 := run reqs1 initial in
  let r2 := run reqs2 r1.2 in
  created_ids r1.1 = seqZ 1 (Z.of_nat (length (created_ids r1.1))) /\
  StronglySorted Z.lt (created_ids r1.1) /\
  NoDup (created_ids r1.1) /\
  (forall i j, i ∈ created_ids r1.1 -> j ∈ created_ids r2.1 -> i < j).
Proof.
  intros r1 r2.
  pose proof (run_created_ids reqs1 initial) as H1. fold r1 in H1.
  pose proof (run_created_ids reqs2 r1.2) as H2. fold r2 in H2.
  pose proof (run_nextId reqs1 initial) as Hn. fold r1 in Hn.
  change (nextId initial) with 1 in H1, Hn.
  split; [exact H1|]. split; [|split].
  - rewrite H1. apply seqZ_strictly_sorted.
  - rewrite H1. apply NoDup_seqZ.
  - intros i j Hi Hj. rewrite H1 in Hi. rewrite H2 in Hj.
    apply elem_of_seqZ in Hi, Hj. lia.
Qed.

Lemma ids_strictly_increasing_witness :
  let ann := user_body (JStr (lit "Ann")) (JStr (lit "ann@x.com")) in
  let reqs1 := [(10, PostUsers ann); (11, DeleteUser (lit "1"))] in
  let reqs2 := [(12, PostUsers ann)] in
  created_ids (run reqs1 initial).1 = [1] /\
  created_ids (run reqs2 (run reqs1 initial).2).1 = [2] /\
  1 < 2.
Proof.
  intros ann reqs1 reqs2.
  assert (E1 : created_ids (run reqs1 initial).1 = [1])
    by (vm_compute; reflexivity).
  assert (E2 : created_ids (run reqs2 (run reqs1 initial).2).1 = [2])
    by (vm_compute; reflexivity).
  split; [exact E1|]. split; [exact E2|].
  apply (ids_strictly_increasing reqs1 reqs2).
  - rewrite E1. apply list_elem_of_In. left. reflexivity.
  - rewrite E2. apply list_elem_of_In. left. reflexivity.
Defined.

(** C2: an update keeps the identity of the record.  For a user stored at
    the id [key] and a body that passes validation, [PUT /users/key] (the
    decimal numeral of [key], or any other segment that parses to it) answers
    200 with a user whose [id] and [createdAt] are those of the stored one and
    whose [name] and [email] are the trimmed fields of the body; that user
    replaces the stored one and nothing else in the store changes. *)
Theorem put_preserves_identity (key : Z) (u : User) (body : JsValue)
        (v : Validation) (st : Store) :
  users st !! key = Some u ->
  validateUserData body = Normal v ->
  isValid v = true ->
  parseInt (decimal key) = Some key /\
  forall seg,
    parseInt seg = Some key ->
    exists n e,
      get_prop body "name" = Normal (JStr n) /\
      get_prop body "email" = Normal (JStr e) /\
      let updated := {| id := id u; name := trim n; email := trim e;
                        createdAt := createdAt u |} in
      put_user seg body st =
        (Sent 200 (BUser updated),
         {| users := <[key := updated]> (users st); nextId := nextId st |}) /\
      (forall k, k <> key ->
         users (put_user seg body st).2 !! k = users st !! k).
Proof.
  intros Hu H Hv. split; [apply parseInt_decimal|]. intros seg Hp.
  destruct (put_user_valid st seg key u body v Hp Hu H Hv)
    as (n & e & Hn & He & Hput).
  exists n, e. repeat split; try assumption.
  intros k Hk. simpl in Hput. rewrite Hput. simpl.
  apply lookup_insert_ne. congruence.
Qed.

Lemma put_preserves_identity_witness :
  let old := {| id := 1; name := lit "Ann"; email := lit "ann@x.com";
                createdAt := 10 |} in
  let st := {| users := {[1 := old]}; nextId := 2 |} in
  let body := user_body (JStr (lit " Bob ")) (JStr (lit "bob@y.org")) in
  users st !! 1 = Some old /\
  validateUserData body = Normal {| isValid := true; errors := [] |} /\
  put_user (decimal 1) body st =
    (Sent 200 (BUser {| id := 1; name := lit "Bob"; email := lit "bob@y.org";
                        createdAt := 10 |}),
     {| users := <[1 := {| id := 1; name := lit "Bob";
                           email := lit "bob@y.org"; createdAt := 10 |}]>
                   {[1 := old]};
        nextId := 2 |}).
Proof.
  intros old st body. split; [reflexivity|]. split; [reflexivity|].
  destruct (put_preserves_identity 1 old body
              {| isValid := true; errors := [] |} st eq_refl eq_refl eq_refl)
    as [Hp Hput].
  destruct (Hput (decimal 1) Hp) as (n & e & Hn & He & Hput1 & _).
  vm_compute in Hn. vm_compute in He.
  injection Hn as <-. injection He as <-. exact Hput1.
Defined.

(** C3, as stated: with a segment that parses and a body that fails
    validation PUT would answer 400 whether or not the user exists.  The
    handler looks the user up before it validates the body, so on the empty
    store [PUT /users/1] with the body [{}] answers 404. *)
Lemma put_unknown_id_invalid_body_is_404 :
  parseInt (lit "1") = Some 1 /\
  validateUserData (JObj []) =
    Normal {| isValid := false;
              errors := [ERR_NAME; ERR_EMAIL_REQUIRED] |} /\
  put_user (lit "1") (JObj []) initial =
    (Sent 404 (BError "User not found"), initial) /\
  ~ (forall seg key body st v,
       parseInt seg = Some key ->
       validateUserData body = Normal v ->
       isValid v = false ->
       (put_user seg body st).1 =
         Sent 400 (BValidation "Validation failed" (errors v))).
Proof.
  repeat split.
  intros H.
  specialize (H (lit "1") 1 (JObj []) initial _ eq_refl eq_refl eq_refl).
  discriminate H.
Qed.

(** C3, amended: for a segment that parses to an id, PUT answers 404 when no
    user has that id, whatever the body; when a user has that id and the body
    fails validation it answers 400 with the validation error list.  In both
    cases the store is unchanged. *)
Theorem put_error_order (seg : jsstring) (key : Z) (body : JsValue)
        (st : Store) :
  parseInt seg = Some key ->
  (users st !! key = None ->
   put_user seg body st = (Sent 404 (BError "User not found"), st)) /\
  (forall u v,
     users st !! key = Some u ->
     validateUserData body = Normal v ->
     isValid v = false ->
     put_user seg body st =
       (Sent 400 (BValidation "Validation failed" (errors v)), st)).
Proof.
  intros Hp. split.
  - intros Hu. unfold put_user. rewrite Hp, Hu. reflexivity.
  - intros u v Hu H Hv. apply (put_user_invalid st seg key u body v); assumption.
Qed.

Lemma put_error_order_witness :
  let old := {| id := 1; name := lit "Ann"; email := lit "ann@x.com";
                createdAt := 10 |} in
  let st := {| users := {[1 := old]}; nextId := 2 |} in
  let bad := user_body (JStr (lit "")) (JStr (lit "bad")) in
  parseInt (lit "1") = Some 1 /\
  put_user (lit "1") bad initial =
    (Sent 404 (BError "User not found"), initial) /\
  put_user (lit "1") bad st =
    (Sent 400 (BValidation "Validation failed" [ERR_NAME; ERR_EMAIL_FORMAT]),
     st).
Proof.
  intros old st bad. split; [reflexivity|]. split.
  - apply (put_error_order (lit "1") 1 bad initial); reflexivity.
  - apply (proj2 (put_error_order (lit "1") 1 bad st eq_refl) old
             {| isValid := false; errors := [ERR_NAME; ERR_EMAIL_FORMAT] |});
      reflexivity.
Defined.

(** C4: error responses leave the store alone.  Whenever a request (POST,
    PUT, DELETE or any other route) is answered with status 400 or 404, the
    [users] mapping and the [nextId] counter after the request are exactly
    those before it. *)
Theorem error_leaves_store (now : Z) (req : Request) (st : Store) :
  status_of (handle now req st).1 = 400 \/
  status_of (handle now req st).1 = 404 ->
  (handle now req st).2 = st.
Proof.
  destruct req as [| |seg|body|seg body|seg]; simpl.
  - reflexivity.
  - reflexivity.
  - intros _. unfold get_user. destruct (parseInt seg) as [key|]; [|reflexivity].
    destruct (users st !! key); reflexivity.
  - destruct (validateUserData body) as [v|e] eqn:H.
    + destruct (isValid v) eqn:Hv.
      * destruct (post_users_valid now st _ _ H Hv) as (n & e & _ & _ & ->).
        simpl. intros [E|E]; discriminate E.
      * rewrite (post_users_invalid now st _ _ H Hv). reflexivity.
    + rewrite (post_users_throw now st _ _ H). reflexivity.
  - destruct (parseInt seg) as [key|] eqn:Hp;
      [|unfold put_user; rewrite Hp; reflexivity].
    destruct (users st !! key) as [u|] eqn:Hu;
      [|unfold put_user; rewrite Hp, Hu; reflexivity].
    destruct (validateUserData body) as [v|e] eqn:H;
      [|unfold put_user; rewrite Hp, Hu, H; reflexivity].
    destruct (isValid v) eqn:Hv.
    + destruct (put_user_valid st _ _ _ _ _ Hp Hu H Hv) as (n & e & _ & _ & ->).
      simpl. intros [E|E]; discriminate E.
    + rewrite (put_user_invalid st _ _ _ _ _ Hp Hu H Hv). reflexivity.
  - unfold delete_user. destruct (parseInt seg) as [key|]; [|reflexivity].
    destruct (users st !! key); simpl; [|reflexivity].
    intros [E|E]; discriminate E.
Qed.

Lemma error_leaves_store_witness :
  let old := {| id := 1; name := lit "Ann"; email := lit "ann@x.com";
                createdAt := 10 |} in
  let st := {| users := {[1 := old]}; nextId := 2 |} in
  let bad := user_body (JStr (lit "")) (JStr (lit "bad")) in
  (status_of (handle 20 (PostUsers bad) st).1 = 400 /\
   (handle 20 (PostUsers bad) st).2 = st) /\
  (status_of (handle 21 (DeleteUser (lit "7")) st).1 = 404 /\
   (handle 21 (DeleteUser (lit "7")) st).2 = st) /\
  (status_of (handle 22 (PutUser (lit "x") bad) st).1 = 400 /\
   (handle 22 (PutUser (lit "x") bad) st).2 = st).
Proof.
  intros old st bad.
  split; [|split]; (split; [reflexivity|]).
  - apply (error_leaves_store 20 (PostUsers bad) st). left. reflexivity.
  - apply (error_leaves_store 21 (DeleteUser (lit "7")) st). right. reflexivity.
  - apply (error_leaves_store 22 (PutUser (lit "x") bad) st). left. reflexivity.
Defined.

(** C5: validation accumulates.  The error list is the errors of the name
    field followed by the errors of the email field, each computed from its
    own field only; POST with the body [{"name":"","email":"bad"}] answers 400
    with exactly the name error and the email-format error; and the two email
    messages never occur in the same error list. *)
Theorem validation_accumulates :
  (forall data n e,
     get_prop data "name" = Normal n ->
     get_prop data "email" = Normal e ->
     exists v, validateUserData data = Normal v /\
               errors v = name_errors n ++ email_errors e /\
               (isValid v = true <-> errors v = [])) /\
  (forall now st,
     post_users now (user_body (JStr (lit "")) (JStr (lit "bad"))) st =
       (Sent 400 (BValidation "Validation failed"
                    [ERR_NAME; ERR_EMAIL_FORMAT]), st)) /\
  (forall data v,
     validateUserData data = Normal v ->
     ~ (In ERR_EMAIL_REQUIRED (errors v) /\ In ERR_EMAIL_FORMAT (errors v))).
Proof.
  split; [|split].
  - intros data n e Hn He. eexists. split; [|split].
    + apply (validateUserData_fields _ _ _ Hn He).
    + reflexivity.
    + simpl. rewrite Nat.eqb_eq. apply length_zero_iff_nil.
  - intros now st. reflexivity.
  - intros data v Hv.
    destruct (validateUserData_normal _ _ Hv) as (n & e & Hn & He).
    rewrite (validateUserData_fields _ _ _ Hn He) in Hv. injection Hv as <-.
    simpl. unfold name_errors, email_errors.
    destruct (nonempty_string n), (nonempty_string e), (email_test e); simpl;
      intros [H1 H2]; intuition discriminate.
Qed.

Lemma validation_accumulates_witness :
  let data := user_body (JBool true) (JStr (lit "   ")) in
  exists v, validateUserData data = Normal v /\
            errors v = [ERR_NAME; ERR_EMAIL_REQUIRED] /\
            ~ (In ERR_EMAIL_REQUIRED (errors v) /\
               In ERR_EMAIL_FORMAT (errors v)).
Proof.
  intros data.
  destruct (proj1 validation_accumulates data (JBool true) (JStr (lit "   "))
              eq_refl eq_refl) as (v & Hv & He & _).
  exists v. split; [exact Hv|]. split; [exact He|].
  apply (proj2 (proj2 validation_accumulates) data v Hv).
Defined.

(** C6: the email check accepts exactly the strings of the shape plain run,
    ["@"], plain run, ["."], plain run, where a plain run is one or more
    characters that are neither white space nor ["@"]: the pattern test
    succeeds on exactly these strings, and validation reports no email error
    for a string value exactly when it has this shape.  ["a@b.c"] passes;
    ["a@b"] and ["noatsign.com"] are rejected with the email-format error,
    whatever the name field holds. *)
Theorem email_check_exact :
  (forall s, regex_test email_regex s = true <-> email_pattern s) /\
  (forall n s,
     exists v,
       validateUserData (user_body n (JStr s)) = Normal v /\
       (email_pattern s <->
        ~ In ERR_EMAIL_FORMAT (errors v) /\
        ~ In ERR_EMAIL_REQUIRED (errors v))) /\
  validateUserData (user_body (JStr (lit "Ann")) (JStr (lit "a@b.c"))) =
    Normal {| isValid := true; errors := [] |} /\
  (forall n, validateUserData (user_body n (JStr (lit "a@b"))) =
     Normal {| isValid := false;
               errors := name_errors n ++ [ERR_EMAIL_FORMAT] |}) /\
  (forall n, validateUserData (user_body n (JStr (lit "noatsign.com"))) =
     Normal {| isValid := false;
               errors := name_errors n ++ [ERR_EMAIL_FORMAT] |}).
Proof.
  split; [exact email_regex_test_pattern|].
  split; [|split; [reflexivity|]].
  - intros n s. eexists. split.
    + apply (validateUserData_fields (user_body n (JStr s)) n (JStr s));
        reflexivity.
    + cbn [errors]. rewrite <- email_errors_none.
      unfold name_errors, email_errors.
      destruct (nonempty_string n), (nonempty_string (JStr s)),
        (email_test (JStr s)); simpl; split;
        solve [ intros E; discriminate E
              | intros _; split; intros H; intuition discriminate
              | intros [H1 H2]; exfalso; auto
              | reflexivity ].
  - split; intros n.
    + rewrite (validateUserData_fields (user_body n (JStr (lit "a@b"))) n
                 (JStr (lit "a@b")) eq_refl eq_refl).
      unfold name_errors. destruct (nonempty_string n); reflexivity.
    + rewrite (validateUserData_fields
                 (user_body n (JStr (lit "noatsign.com"))) n
                 (JStr (lit "noatsign.com")) eq_refl eq_refl).
      unfold name_errors. destruct (nonempty_string n); reflexivity.
Qed.

Lemma email_check_exact_witness :
  regex_test email_regex (lit "ann.lee@mail.example.org") = true /\
  email_pattern (lit "ann.lee@mail.example.org").
Proof.
  split; [reflexivity|].
  apply (proj1 email_check_exact). reflexivity.
Defined.

(** C7: deletion is terminal.  For a user stored at the id [key],
    [DELETE /users/key] (the decimal numeral of [key], or any other segment
    that parses to it) answers 204 with an empty body and removes that id from
    [users], the counter staying as it is; after that, GET and DELETE of the
    same segment both answer 404 and leave the store alone. *)
Theorem delete_is_terminal (key : Z) (u : User) (st : Store) :
  users st !! key = Some u ->
  parseInt (decimal key) = Some key /\
  forall seg,
    parseInt seg = Some key ->
    let st1 := (delete_user seg st).2 in
    delete_user seg st =
      (Sent 204 BEmpty,
       {| users := delete key (users st); nextId := nextId st |}) /\
    users st1 !! key = None /\
    get_user seg st1 = (Sent 404 (BError "User not found"), st1) /\
    delete_user seg st1 = (Sent 404 (BError "User not found"), st1).
Proof.
  intros Hu. split; [apply parseInt_decimal|]. intros seg Hp st1.
  assert (Hd : delete_user seg st =
                 (Sent 204 BEmpty,
                  {| users := delete key (users st); nextId := nextId st |}))
    by (unfold delete_user; rewrite Hp, Hu; reflexivity).
  assert (Hk : users st1 !! key = None)
    by (unfold st1; rewrite Hd; apply lookup_delete_eq).
  split; [exact Hd|]. split; [exact Hk|].
  unfold get_user, delete_user. rewrite Hp, Hk. split; reflexivity.
Qed.

Lemma delete_is_terminal_witness :
  let old := {| id := 1; name := lit "Ann"; email := lit "ann@x.com";
                createdAt := 10 |} in
  let st := {| users := {[1 := old]}; nextId := 2 |} in
  let st1 := (delete_user (decimal 1) st).2 in
  users st !! 1 = Some old /\
  delete_user (decimal 1) st =
    (Sent 204 BEmpty, {| users := delete 1 (users st); nextId := 2 |}) /\
  get_user (decimal 1) st1 = (Sent 404 (BError "User not found"), st1) /\
  delete_user (decimal 1) st1 = (Sent 404 (BError "User not found"), st1).
Proof.
  intros old st st1.
  split; [reflexivity|].
  destruct (delete_is_terminal 1 old st eq_refl) as [Hp Hdel].
  destruct (Hdel (decimal 1) Hp) as (Hd & _ & Hg & Hdd).
  split; [exact Hd|]. split; [exact Hg | exact Hdd].
Defined.

(** C8, as stated: every segment would be read as a base-10 integer.
    [parseInt] is called without a radix, so a segment with a [0x] prefix is
    read in base 16: ["0x10"] denotes 16, where the base-10 reading of its
    numeric prefix is 0, and [GET /users/0x10] returns the user with id 16. *)
Lemma hex_segment_is_not_base10 :
  let u16 := {| id := 16; name := lit "Ann"; email := lit "ann@x.com";
                createdAt := 10 |} in
  let st := {| users := {[16 := u16]}; nextId := 17 |} in
  parseInt (lit "0x10") = Some 16 /\
  parse_base10 (lit "0x10") = Some 0 /\
  get_user (lit "0x10") st = (Sent 200 (BUser u16), st) /\
  ~ (forall seg, parseInt seg = parse_base10 seg).
Proof.
  intros u16 st. repeat split.
  intros H. specialize (H (lit "0x10")). discriminate H.
Qed.

(** C8, amended: the segment is parsed by [parseInt] without a radix.  Unless
    it carries a [0x] or [0X] prefix (after leading white space and an
    optional sign), it is read as a base-10 integer; with such a prefix the
    digits after it are read in base 16.  A segment that does not start with
    a numeric prefix fails parsing, and a segment that fails parsing gets the
    400 "Invalid user ID" response from GET, PUT and DELETE alike, the store
    unchanged; [GET /users/abc] is such a request. *)
Theorem segment_parsing (seg : jsstring) :
  (has_hex_prefix seg = false -> parseInt seg = parse_base10 seg) /\
  (has_hex_prefix seg = true ->
   exists sign x rest,
     split_sign (trim_start seg) = (sign, N_of_ascii "0" :: x :: rest) /\
     parseInt seg =
       option_map (Z.mul sign) (read_digits 16 rest false 0)) /\
  (has_numeric_prefix seg = false -> parseInt seg = None) /\
  (parseInt seg = None ->
   forall body st,
     get_user seg st = (Sent 400 (BError "Invalid user ID"), st) /\
     put_user seg body st = (Sent 400 (BError "Invalid user ID"), st) /\
     delete_user seg st = (Sent 400 (BError "Invalid user ID"), st)) /\
  (forall st,
     get_user (lit "abc") st = (Sent 400 (BError "Invalid user ID"), st)).
Proof.
  split; [apply parseInt_no_hex|]. split; [|split; [|split]].
  - unfold has_hex_prefix, parseInt.
    destruct (split_sign (trim_start seg)) as [sign S1]. simpl.
    destruct S1 as [|c0 [|c1 rest]]; simpl; try discriminate.
    destruct (is_chr "0" c0) eqn:E0; simpl; [|discriminate].
    apply N.eqb_eq in E0. subst c0.
    destruct (is_chr "x" c1 || is_chr "X" c1); simpl; [|discriminate].
    intros _. exists sign, c1, rest. split; [reflexivity|].
    destruct (read_digits 16 rest false 0); reflexivity.
  - apply parseInt_no_numeric_prefix.
  - intros H body st. apply nan_is_400. exact H.
  - intros st. reflexivity.
Qed.

Lemma segment_parsing_witness :
  (has_hex_prefix (lit " -42abc") = false /\
   parseInt (lit " -42abc") = parse_base10 (lit " -42abc")) /\
  (has_hex_prefix (lit "0x1f") = true /\ parseInt (lit "0x1f") = Some 31) /\
  (has_numeric_prefix (lit "abc") = false /\ parseInt (lit "abc") = None) /\
  put_user (lit "abc") JUndefined initial =
    (Sent 400 (BError "Invalid user ID"), initial).
Proof.
  split; [|split; [|split]].
  - split; [reflexivity|].
    apply (proj1 (segment_parsing (lit " -42abc"))). reflexivity.
  - split; [reflexivity|].
    destruct (proj1 (proj2 (segment_parsing (lit "0x1f"))) eq_refl)
      as (sign & x & rest & Hs & ->).
    vm_compute in Hs. injection Hs as <- <- <-. reflexivity.
  - split; [reflexivity|].
    apply (proj1 (proj2 (proj2 (segment_parsing (lit "abc"))))). reflexivity.
  - apply (proj1 (proj2 (proj2 (proj2 (segment_parsing (lit "abc")))))
             eq_refl JUndefined initial).
Defined.

(** C9: GET of one user is idempotent and free of side effects.  Two GETs of
    the same segment in a row, at any two times, produce the same outcome
    (status and body), and the store after them, [users] and [nextId], is the
    store before them. *)
Theorem get_user_idempotent (seg : jsstring) (st : Store) (t1 t2 : Z) :
  (handle t1 (GetUser seg) st).2 = st /\
  run [(t1, GetUser seg); (t2, GetUser seg)] st =
    ([(handle t1 (GetUser seg) st).1; (handle t1 (GetUser seg) st).1], st).
Proof.
  assert (H : forall t, (handle t (GetUser seg) st).2 = st).
  { intros t. simpl. unfold get_user.
    destruct (parseInt seg) as [key|]; [|reflexivity].
    destruct (users st !! key); reflexivity. }
  split; [apply H|].
  rewrite !run_cons. rewrite (H t1). cbn [run fst snd]. rewrite (H t2).
  reflexivity.
Qed.

(** C10: the pattern is tested on the untrimmed email.  A string that the
    email check accepts holds no white space and is its own trim; a body that
    passes validation therefore carries an email that trimming leaves as it
    is, and a create stores that email verbatim; [" a@b.c"], which the
    pattern accepts once trimmed, is rejected with the email-format error. *)
Theorem accepted_email_untrimmed :
  (forall s, regex_test email_regex s = true ->
     Forall (fun c => is_ws c = false) s /\ trim s = s) /\
  (forall now st body v,
     validateUserData body = Normal v ->
     isValid v = true ->
     exists e u,
       get_prop body "email" = Normal (JStr e) /\
       trimmed_prop body "email" = Normal e /\
       (post_users now body st).1 = Sent 201 (BUser u) /\
       email u = e) /\
  regex_test email_regex (trim (lit " a@b.c")) = true /\
  (forall n, validateUserData (user_body n (JStr (lit " a@b.c"))) =
     Normal {| isValid := false;
               errors := name_errors n ++ [ERR_EMAIL_FORMAT] |}).
Proof.
  assert (Hws : forall s, regex_test email_regex s = true ->
                  Forall (fun c => is_ws c = false) s /\ trim s = s).
  { intros s H. apply email_regex_test_pattern, email_pattern_no_ws in H.
    split; [exact H | apply trim_no_ws, H]. }
  split; [exact Hws|]. split; [|split; [reflexivity|]].
  - intros now st body v H Hv.
    destruct (valid_body_fields _ _ H Hv) as (n & e & Hn & He & _ & Hre).
    destruct (post_users_valid now st _ _ H Hv) as (n' & e' & _ & He' & Hpost).
    rewrite He in He'. injection He' as <-.
    destruct (Hws e Hre) as [_ Htrim].
    eexists e, _. split; [exact He|]. split.
    + unfold trimmed_prop. rewrite He. simpl. rewrite Htrim. reflexivity.
    + simpl in Hpost. rewrite Hpost. simpl. split; [reflexivity | exact Htrim].
  - intros n.
    rewrite (validateUserData_fields (user_body n (JStr (lit " a@b.c"))) n
               (JStr (lit " a@b.c")) eq_refl eq_refl).
    unfold name_errors. destruct (nonempty_string n); reflexivity.
Qed.

Lemma accepted_email_untrimmed_witness :
  let body := user_body (JStr (lit " Ann ")) (JStr (lit "ann@x.com")) in
  regex_test email_regex (lit "ann@x.com") = true /\
  trim (lit "ann@x.com") = lit "ann@x.com" /\
  exists e u,
    get_prop body "email" = Normal (JStr e) /\
    trimmed_prop body "email" = Normal e /\
    (post_users 10 body initial).1 = Sent 201 (BUser u) /\
    email u = e.
Proof.
  intros body. split; [reflexivity|]. split.
  - apply (proj1 accepted_email_untrimmed (lit "ann@x.com")). reflexivity.
  - apply (proj1 (proj2 accepted_email_untrimmed) 10 initial body
             {| isValid := true; errors := [] |}); reflexivity.
Defined.

(** * Further properties of the service *)

(** ** Trimmed strings *)

Section Trimmed.

Lemma trim_start_clean (s : jsstring) : starts_clean (trim_start s).
Proof.
  induction s as [|c s IH]; simpl; [exact I|].
  destruct (is_ws c) eqn:E; [exact IH | exact E].
Qed.

Lemma starts_clean_trim_start (s : jsstring) :
  starts_clean s -> trim_start s = s.
Proof. destruct s as [|c s]; simpl; [reflexivity|]. intros ->. reflexivity. Qed.

Lemma trim_start_snoc (c : code_unit) (l : jsstring) :
  is_ws c = false -> exists l2, trim_start (l ++ [c]) = l2 ++ [c].
Proof.
  intros Hc. induction l as [|x l IH]; simpl.
  - rewrite Hc. exists []. reflexivity.
  - destruct (is_ws x); [exact IH|]. exists (x :: l). reflexivity.
Qed.

Lemma trim_end_clean (s : jsstring) :
  starts_clean s -> starts_clean (trim_end s).
Proof.
  destruct s as [|c s]; [intros _; exact I|]. simpl. intros Hc.
  unfold trim_end. simpl rev.
  destruct (trim_start_snoc c (rev s) Hc) as [l2 ->].
  rewrite rev_unit. exact Hc.
Qed.

(** [trim] leaves no white space at either end. *)
Lemma trim_trimmed (s : jsstring) : trimmed (trim s).
Proof.
  unfold trimmed, trim. split.
  - apply trim_end_clean, trim_start_clean.
  - unfold trim_end. rewrite rev_involutive. apply trim_start_clean.
Qed.

(** A string with no white space at either end is its own trim. *)
Lemma trimmed_trim (s : jsstring) : trimmed s -> trim s = s.
Proof.
  intros [H1 H2]. unfold trim, trim_end.
  rewrite (starts_clean_trim_start s H1), (starts_clean_trim_start _ H2).
  apply rev_involutive.
Qed.

Lemma trim_idempotent (s : jsstring) : trim (trim s) = trim s.
Proof. apply trimmed_trim, trim_trimmed. Qed.

Lemma email_pattern_nonempty (s : jsstring) : email_pattern s -> s <> [].
Proof.
  intros (l & d & t & -> & [Hl _] & _). destruct l; [congruence | discriminate].
Qed.

End Trimmed.

(** ** The store invariant *)

Section StoreOk.

Lemma initial_ok : store_ok initial.
Proof.
  split; [simpl; lia|]. intros k u H. simpl in H.
  rewrite lookup_empty in H. discriminate H.
Qed.

Lemma user_ok_mono (b1 b2 k : Z) (u : User) :
  b1 <= b2 -> user_ok b1 k u -> user_ok b2 k u.
Proof.
  unfold user_ok. intros Hb (H1 & [H2 H2'] & H3).
  split; [exact H1|]. split; [lia | exact H3].
Qed.

Lemma post_users_ok (now : Z) (body : JsValue) (st : Store) :
  store_ok st -> store_ok (post_users now body st).2.
Proof.
  intros [Hn Hst].
  destruct (validateUserData body) as [v|e] eqn:H;
    [|rewrite (post_users_throw now st _ _ H); split; assumption].
  destruct (isValid v) eqn:Hv;
    [|rewrite (post_users_invalid now st _ _ H Hv); split; assumption].
  destruct (valid_body_fields _ _ H Hv) as (n & e & Hn1 & He1 & Hne & Hre).
  destruct (post_users_valid now st _ _ H Hv) as (n' & e' & Hn2 & He2 & Hp).
  rewrite Hn1 in Hn2. rewrite He1 in He2.
  injection Hn2 as <-. injection He2 as <-.
  simpl in Hp. rewrite Hp. split; simpl; [lia|].
  intros k u Hk. destruct (decide (nextId st = k)) as [<-|Hne'].
  - rewrite lookup_insert_eq in Hk. injection Hk as <-.
    apply email_regex_test_pattern in Hre as Hpat.
    split; [reflexivity|]. split; [simpl; lia|].
    split; [exact Hne|]. split; [apply trim_trimmed|]. simpl.
    rewrite (trim_no_ws e (email_pattern_no_ws e Hpat)). exact Hpat.
  - rewrite lookup_insert_ne in Hk by exact Hne'.
    apply (user_ok_mono (nextId st)); [lia | auto].
Qed.

Lemma put_user_ok (seg : jsstring) (body : JsValue) (st : Store) :
  store_ok st -> store_ok (put_user seg body st).2.
Proof.
  intros [Hn Hst].
  destruct (parseInt seg) as [key|] eqn:Hp;
    [|unfold put_user; rewrite Hp; split; assumption].
  destruct (users st !! key) as [u0|] eqn:Hu;
    [|unfold put_user; rewrite Hp, Hu; split; assumption].
  destruct (validateUserData body) as [v|e] eqn:H;
    [|unfold put_user; rewrite Hp, Hu, H; split; assumption].
  destruct (isValid v) eqn:Hv;
    [|rewrite (put_user_invalid st _ _ _ _ _ Hp Hu H Hv); split; assumption].
  destruct (valid_body_fields _ _ H Hv) as (n & e & Hn1 & He1 & Hne & Hre).
  destruct (put_user_valid st _ _ _ _ _ Hp Hu H Hv)
    as (n' & e' & Hn2 & He2 & Hput).
  rewrite Hn1 in Hn2. rewrite He1 in He2.
  injection Hn2 as <-. injection He2 as <-.
  simpl in Hput. rewrite Hput. split; simpl; [lia|].
  intros k u Hk. destruct (decide (key = k)) as [<-|Hne'].
  - rewrite lookup_insert_eq in Hk. injection Hk as <-.
    destruct (Hst key u0 Hu) as (Hid & Hrange & _).
    apply email_regex_test_pattern in Hre as Hpat.
    split; [exact Hid|]. split; [exact Hrange|].
    split; [exact Hne|]. split; [apply trim_trimmed|]. simpl.
    rewrite (trim_no_ws e (email_pattern_no_ws e Hpat)). exact Hpat.
  - rewrite lookup_insert_ne in Hk by exact Hne'. auto.
Qed.

Lemma delete_user_ok (seg : jsstring) (st : Store) :
  store_ok st -> store_ok (delete_user seg st).2.
Proof.
  intros [Hn Hst]. unfold delete_user.
  destruct (parseInt seg) as [key|]; [|split; assumption].
  destruct (users st !! key) as [u0|] eqn:Hu; [|split; assumption].
  split; simpl; [lia|]. intros k u Hk.
  apply lookup_delete_Some in Hk as [_ Hk]. auto.
Qed.

(** Handling a request keeps the store well formed. *)
Lemma handle_ok (now : Z) (req : Request) (st : Store) :
  store_ok st -> store_ok (handle now req st).2.
Proof.
  destruct req as [| |seg|body|seg body|seg]; simpl.
  - auto.
  - auto.
  - unfold get_user. destruct (parseInt seg) as [key|]; [|auto].
    destruct (users st !! key); auto.
  - apply post_users_ok.
  - apply put_user_ok.
  - apply delete_user_ok.
Qed.

Lemma run_ok (reqs : list (Z * Request)) :
  forall st, store_ok st -> store_ok (run reqs st).2.
Proof.
  induction reqs as [|[now req] rest IH]; intros st Hst; [exact Hst|].
  rewrite run_cons. cbn [snd]. apply IH, handle_ok, Hst.
Qed.

End StoreOk.

(** ** What later requests can do to an id already handed out *)

Section OldIds.

Lemma handle_nextId_mono (now : Z) (req : Request) (st : Store) :
  nextId st <= nextId (handle now req st).2.
Proof.
  pose proof (handle_counter now st req) as H.
  destruct (created_id (handle now req st).1); lia.
Qed.

(** One request and an id below the counter: an absent id stays absent, and
    a stored user is removed or keeps its [id] and [createdAt]. *)
Lemma handle_lookup_old (now : Z) (req : Request) (st : Store) (k : Z) :
  k < nextId st ->
  match users st !! k with
  | None => users (handle now req st).2 !! k = None
  | Some u =>
      users (handle now req st).2 !! k = None \/
      exists u', users (handle now req st).2 !! k = Some u' /\
                 id u' = id u /\ createdAt u' = createdAt u
  end.
Proof.
  intros Hk.
  assert (Hsame : (handle now req st).2 = st ->
    match users st !! k with
    | None => users (handle now req st).2 !! k = None
    | Some u =>
        users (handle now req st).2 !! k = None \/
        exists u', users (handle now req st).2 !! k = Some u' /\
                   id u' = id u /\ createdAt u' = createdAt u
    end).
  { intros ->. destruct (users st !! k) as [u|] eqn:E; [right; eauto | reflexivity]. }
  destruct req as [| |seg|body|seg body|seg]; simpl in *.
  - apply Hsame. reflexivity.
  - apply Hsame. reflexivity.
  - apply Hsame. unfold get_user. destruct (parseInt seg) as [key|]; [|reflexivity].
    destruct (users st !! key); reflexivity.
  - destruct (validateUserData body) as [v|e] eqn:H;
      [|apply Hsame; rewrite (post_users_throw now st _ _ H); reflexivity].
    destruct (isValid v) eqn:Hv;
      [|apply Hsame; rewrite (post_users_invalid now st _ _ H Hv); reflexivity].
    destruct (post_users_valid now st _ _ H Hv) as (n & e & _ & _ & Hp).
    simpl in Hp. rewrite Hp. simpl.
    rewrite lookup_insert_ne by lia.
    destruct (users st !! k) as [u|]; [right; eauto | reflexivity].
  - destruct (parseInt seg) as [key|] eqn:Hp;
      [|apply Hsame; unfold put_user; rewrite Hp; reflexivity].
    destruct (users st !! key) as [u0|] eqn:Hu;
      [|apply Hsame; unfold put_user; rewrite Hp, Hu; reflexivity].
    destruct (validateUserData body) as [v|e] eqn:H;
      [|apply Hsame; unfold put_user; rewrite Hp, Hu, H; reflexivity].
    destruct (isValid v) eqn:Hv;
      [|apply Hsame; rewrite (put_user_invalid st _ _ _ _ _ Hp Hu H Hv);
        reflexivity].
    destruct (put_user_valid st _ _ _ _ _ Hp Hu H Hv) as (n & e & _ & _ & Hput).
    simpl in Hput. rewrite Hput. simpl.
    destruct (decide (key = k)) as [->|Hne].
    + rewrite Hu, lookup_insert_eq. right. eexists. split; [reflexivity|].
      split; reflexivity.
    + rewrite lookup_insert_ne by exact Hne.
      destruct (users st !! k) as [u|]; [right; eauto | reflexivity].
  - unfold delete_user in *.
    destruct (parseInt seg) as [key|] eqn:Hp; [|apply Hsame; reflexivity].
    destruct (users st !! key) as [u0|] eqn:Hu; [|apply Hsame; reflexivity].
    simpl. destruct (decide (key = k)) as [->|Hne].
    + rewrite Hu, lookup_delete_eq. left. reflexivity.
    + rewrite lookup_delete_ne by exact Hne.
      destruct (users st !! k) as [u|]; [right; eauto | reflexivity].
Qed.

(** The same over any sequence of requests. *)
Lemma run_lookup_old (reqs : list (Z * Request)) (k : Z) :
  forall st,
    k < nextId st ->
    match users st !! k with
    | None => users (run reqs st).2 !! k = None
    | Some u =>
        users (run reqs st).2 !! k = None \/
        exists u', users (run reqs st).2 !! k = Some u' /\
                   id u' = id u /\ createdAt u' = createdAt u
    end.
Proof.
  induction reqs as [|[now req] rest IH]; intros st Hk.
  - simpl. destruct (users st !! k) as [u|]; [right; eauto | reflexivity].
  - rewrite run_cons. cbn [snd].
    pose proof (handle_lookup_old now req st k Hk) as Hstep.
    pose proof (handle_nextId_mono now req st) as Hmono.
    assert (Hk1 : k < nextId (handle now req st).2) by lia.
    specialize (IH (handle now req st).2 Hk1).
    destruct (users st !! k) as [u|].
    + destruct Hstep as [Hnone | (u1 & Hsome & Hid & Hcr)].
      * rewrite Hnone in IH. left. exact IH.
      * rewrite Hsome in IH. destruct IH as [IH | (u2 & H2 & Hid2 & Hcr2)].
        -- left. exact IH.
        -- right. exists u2. split; [exact H2|]. split; congruence.
    + rewrite Hstep in IH. exact IH.
Qed.

End OldIds.

(** ** Reachable stores *)

(** Every store reached from the initial one by any sequence of requests is
    well formed: the counter is at least 1, and each stored user sits at the
    key equal to its own [id], which is at least 1 and below the counter, has
    a non-empty name with no white space at either end and an email of the
    email shape; validating the stored record again passes. *)
Theorem reachable_store_invariant (reqs : list (Z * Request)) :
  let st := (run reqs initial).2 in
  1 <= nextId st /\
  forall k u,
    users st !! k = Some u ->
    id u = k /\ 1 <= k < nextId st /\
    name u <> [] /\ trimmed (name u) /\ email_pattern (email u) /\
    validateUserData (user_body (JStr (name u)) (JStr (email u))) =
      Normal {| isValid := true; errors := [] |}.
Proof.
  intros st. destruct (run_ok reqs initial initial_ok) as [Hn Hst].
  split; [exact Hn|]. intros k u Hk.
  destruct (Hst k u Hk) as (Hid & Hrange & Hne & Htr & Hpat).
  split; [exact Hid|]. split; [exact Hrange|]. split; [exact Hne|].
  split; [exact Htr|]. split; [exact Hpat|].
  rewrite (validateUserData_fields
             (user_body (JStr (name u)) (JStr (email u)))
             (JStr (name u)) (JStr (email u)) eq_refl eq_refl).
  apply email_errors_none in Hpat. rewrite Hpat.
  unfold name_errors. simpl. rewrite (trimmed_trim _ Htr).
  destruct (jsstring_eqb (name u) []) eqn:E; [|reflexivity].
  apply jsstring_eqb_true in E. contradiction.
Qed.

Lemma reachable_store_invariant_witness :
  let ann := user_body (JStr (lit "  Ann Lee ")) (JStr (lit "ann@x.com")) in
  let st := (run [(10, PostUsers ann)] initial).2 in
  let u := {| id := 1; name := lit "Ann Lee"; email := lit "ann@x.com";
              createdAt := 10 |} in
  users st !! 1 = Some u /\
  trimmed (name u) /\
  validateUserData (user_body (JStr (name u)) (JStr (email u))) =
    Normal {| isValid := true; errors := [] |}.
Proof.
  intros ann st u.
  assert (Hk : users st !! 1 = Some u) by (vm_compute; reflexivity).
  split; [exact Hk|].
  destruct (proj2 (reachable_store_invariant [(10, PostUsers ann)]) 1 u Hk)
    as (_ & _ & _ & Htr & _ & Hv).
  split; [exact Htr | exact Hv].
Defined.

(** In a reachable store, a segment that parses to an integer below 1 or not
    below the counter (zero, a negative number, an id not handed out yet)
    names no user: GET, PUT and DELETE answer 404 and leave the store as it
    is, whatever the body. *)
Theorem unassigned_id_is_404 (reqs : list (Z * Request)) (seg : jsstring)
        (k : Z) (body : JsValue) :
  let st := (run reqs initial).2 in
  parseInt seg = Some k ->
  k < 1 \/ nextId st <= k ->
  get_user seg st = (Sent 404 (BError "User not found"), st) /\
  put_user seg body st = (Sent 404 (BError "User not found"), st) /\
  delete_user seg st = (Sent 404 (BError "User not found"), st).
Proof.
  intros st Hp Hk.
  assert (Hnone : users st !! k = None).
  { destruct (users st !! k) as [u|] eqn:E; [|reflexivity].
    destruct (run_ok reqs initial initial_ok) as [_ Hst].
    destruct (Hst k u E) as (_ & Hrange & _). fold st in Hrange. lia. }
  unfold get_user, put_user, delete_user. rewrite Hp, Hnone. auto.
Qed.

Lemma unassigned_id_is_404_witness :
  let ann := user_body (JStr (lit "Ann")) (JStr (lit "ann@x.com")) in
  let st := (run [(10, PostUsers ann)] initial).2 in
  parseInt (lit "-1") = Some (-1) /\
  get_user (lit "-1") st = (Sent 404 (BError "User not found"), st) /\
  parseInt (lit "2") = Some 2 /\
  delete_user (lit "2") st = (Sent 404 (BError "User not found"), st).
Proof.
  intros ann st. split; [reflexivity|]. split.
  - apply (unassigned_id_is_404 [(10, PostUsers ann)] (lit "-1") (-1)
             JUndefined eq_refl).
    left. lia.
  - split; [reflexivity|].
    apply (unassigned_id_is_404 [(10, PostUsers ann)] (lit "2") 2
             JUndefined eq_refl).
    right. vm_compute. discriminate.
Defined.

(** A deleted id never comes back.  After a DELETE that removed the user at
    [key] from a reachable store, whatever requests follow (creates, updates,
    deletes), [key] stays absent: GET and PUT on it answer 404. *)
Theorem deleted_id_never_returns (reqs0 reqs : list (Z * Request))
        (seg : jsstring) (key : Z) (u : User) (body : JsValue) :
  let st := (run reqs0 initial).2 in
  let st' := (run reqs (delete_user seg st).2).2 in
  parseInt seg = Some key ->
  users st !! key = Some u ->
  users st' !! key = None /\
  get_user seg st' = (Sent 404 (BError "User not found"), st') /\
  put_user seg body st' = (Sent 404 (BError "User not found"), st').
Proof.
  intros st st' Hp Hu.
  assert (Hnone : users st' !! key = None).
  { destruct (run_ok reqs0 initial initial_ok) as [_ Hst].
    destruct (Hst key u Hu) as (_ & Hrange & _). fold st in Hrange.
    assert (Hd : (delete_user seg st).2 =
                   {| users := delete key (users st); nextId := nextId st |})
      by (unfold delete_user; rewrite Hp, Hu; reflexivity).
    pose proof (run_lookup_old reqs key (delete_user seg st).2) as Hold.
    rewrite Hd in Hold. simpl in Hold. rewrite lookup_delete_eq in Hold.
    unfold st'. rewrite Hd. apply Hold. lia. }
  split; [exact Hnone|].
  unfold get_user, put_user. rewrite Hp, Hnone. auto.
Qed.

Lemma deleted_id_never_returns_witness :
  let ann := user_body (JStr (lit "Ann")) (JStr (lit "ann@x.com")) in
  let bob := user_body (JStr (lit "Bob")) (JStr (lit "bob@y.org")) in
  let st := (run [(10, PostUsers ann)] initial).2 in
  let later := [(12, PostUsers bob); (13, PutUser (lit "1") bob)] in
  let st' := (run later (delete_user (lit "1") st).2).2 in
  is_Some (users st !! 1) /\
  users st' !! 1 = None /\
  is_Some (users st' !! 2).
Proof.
  intros ann bob st later st'.
  split; [eexists; vm_compute; reflexivity|].
  split; [|eexists; vm_compute; reflexivity].
  apply (deleted_id_never_returns [(10, PostUsers ann)] later (lit "1") 1
           {| id := 1; name := lit "Ann"; email := lit "ann@x.com";
              createdAt := 10 |} JUndefined eq_refl).
  vm_compute. reflexivity.
Defined.

(** Identity is immutable.  If an id holds a user in a reachable store and
    still holds one after any further requests, the two records have the same
    [id] and the same [createdAt]: no sequence of requests changes either. *)
Theorem identity_is_immutable (reqs0 reqs : list (Z * Request)) (k : Z)
        (u u' : User) :
  let st := (run reqs0 initial).2 in
  let st' := (run reqs st).2 in
  users st !! k = Some u ->
  users st' !! k = Some u' ->
  id u' = id u /\ createdAt u' = createdAt u.
Proof.
  intros st st' Hu Hu'.
  destruct (run_ok reqs0 initial initial_ok) as [_ Hst].
  destruct (Hst k u Hu) as (_ & Hrange & _). fold st in Hrange.
  pose proof (run_lookup_old reqs k st (proj2 Hrange)) as Hold.
  rewrite Hu in Hold. fold st' in Hold.
  destruct Hold as [Hnone | (u2 & H2 & Hid & Hcr)].
  - rewrite Hnone in Hu'. discriminate Hu'.
  - rewrite H2 in Hu'. injection Hu' as <-. auto.
Qed.

Lemma identity_is_immutable_witness :
  let ann := user_body (JStr (lit "Ann")) (JStr (lit "ann@x.com")) in
  let bob := user_body (JStr (lit "Bob")) (JStr (lit "bob@y.org")) in
  let u := {| id := 1; name := lit "Ann"; email := lit "ann@x.com";
              createdAt := 10 |} in
  let u' := {| id := 1; name := lit "Bob"; email := lit "bob@y.org";
               createdAt := 10 |} in
  let st := (run [(10, PostUsers ann)] initial).2 in
  let st' := (run [(20, PutUser (lit "1") bob); (21, PostUsers ann)] st).2 in
  users st !! 1 = Some u /\ users st' !! 1 = Some u' /\
  id u' = id u /\ createdAt u' = createdAt u.
Proof.
  intros ann bob u u' st st'.
  assert (H1 : users st !! 1 = Some u) by (vm_compute; reflexivity).
  assert (H2 : users st' !! 1 = Some u') by (vm_compute; reflexivity).
  split; [exact H1|]. split; [exact H2|].
  apply (identity_is_immutable [(10, PostUsers ann)]
           [(20, PutUser (lit "1") bob); (21, PostUsers ann)] 1 u u' H1 H2).
Defined.

(** ** Bodies *)

Section Bodies.

Lemma get_prop_nullish (data : JsValue) (key : string) :
  nullish data -> get_prop data key = Throw "TypeError".
Proof. intros [-> | ->]; reflexivity. Qed.

Lemma get_prop_normal (data : JsValue) (key : string) :
  ~ nullish data -> exists x, get_prop data key = Normal x.
Proof.
  unfold nullish. intros H.
  destruct data; simpl; eauto; exfalso; apply H; auto.
Qed.

Lemma nullish_or_not (data : JsValue) : nullish data \/ ~ nullish data.
Proof.
  unfold nullish.
  destruct data; auto; right; intros [H | H]; discriminate H.
Qed.

Lemma validateUserData_nullish (data : JsValue) :
  nullish data -> validateUserData data = Throw "TypeError".
Proof. intros [-> | ->]; reflexivity. Qed.

Lemma validateUserData_throw (data : JsValue) (e : string) :
  validateUserData data = Throw e -> nullish data.
Proof.
  intros H. destruct (nullish_or_not data) as [Hn | Hn]; [exact Hn|].
  destruct (get_prop_normal data "name" Hn) as [n Hn'].
  destruct (get_prop_normal data "email" Hn) as [m Hm'].
  rewrite (validateUserData_fields _ _ _ Hn' Hm') in H. discriminate H.
Qed.

End Bodies.

(** The verdict of validation.  [validateUserData] throws exactly on an
    [undefined] or [null] body; on any other value it returns, and it finds
    the body valid exactly when [name] is a string that does not trim to the
    empty string and [email] is a string of the email shape; an invalid body
    always comes with at least one error message. *)
Theorem validation_verdict (data : JsValue) :
  (nullish data /\ validateUserData data = Throw "TypeError") \/
  (~ nullish data /\
   exists v,
     validateUserData data = Normal v /\
     (isValid v = true <->
      exists n e,
        get_prop data "name" = Normal (JStr n) /\
        get_prop data "email" = Normal (JStr e) /\
        trim n <> [] /\ email_pattern e) /\
     (isValid v = false <-> errors v <> [])).
Proof.
  destruct (nullish_or_not data) as [Hn | Hn].
  { left. split; [exact Hn | apply validateUserData_nullish, Hn]. }
  right. split; [exact Hn|].
  destruct (get_prop_normal data "name" Hn) as [n Hn'].
  destruct (get_prop_normal data "email" Hn) as [m Hm'].
  pose proof (validateUserData_fields _ _ _ Hn' Hm') as Hv.
  eexists. split; [exact Hv|]. split.
  - split.
    + intros Hok.
      destruct (valid_body_fields _ _ Hv Hok) as (sn & se & H1 & H2 & H3 & H4).
      exists sn, se. rewrite <- email_regex_test_pattern. auto.
    + intros (sn & se & H1 & H2 & H3 & H4).
      rewrite Hn' in H1. rewrite Hm' in H2.
      injection H1 as ->. injection H2 as ->.
      apply email_errors_none in H4. cbn [isValid]. rewrite H4.
      unfold name_errors. simpl.
      destruct (jsstring_eqb (trim sn) []) eqn:E; [|reflexivity].
      apply jsstring_eqb_true in E. contradiction.
  - cbn [isValid errors].
    destruct (name_errors n ++ email_errors m); simpl; split;
      congruence.
Qed.

Lemma validation_verdict_witness :
  let data := user_body (JStr (lit " Ann ")) (JStr (lit "ann@x.com")) in
  (exists n e,
     get_prop data "name" = Normal (JStr n) /\
     get_prop data "email" = Normal (JStr e) /\
     trim n <> [] /\ regex_test email_regex e = true) /\
  exists v, validateUserData data = Normal v /\ isValid v = true.
Proof.
  intros data.
  assert (Hc : exists n e,
             get_prop data "name" = Normal (JStr n) /\
             get_prop data "email" = Normal (JStr e) /\
             trim n <> [] /\ regex_test email_regex e = true).
  { exists (lit " Ann "), (lit "ann@x.com").
    split; [reflexivity|]. split; [reflexivity|].
    split; [discriminate | reflexivity]. }
  split; [exact Hc|].
  destruct (validation_verdict data) as [[_ Ht] | (_ & v & Hv & Hiff & _)].
  - discriminate Ht.
  - exists v. split; [exact Hv|]. apply Hiff.
    destruct Hc as (n & e & H1 & H2 & H3 & H4).
    exists n, e. rewrite <- email_regex_test_pattern. auto.
Defined.

(** A request is answered with a 500 only for want of a body.  The outcome
    of a request is an exception exactly when it is a POST whose body is
    [undefined] or [null], or a PUT with such a body on an id that holds a
    user; the store is then unchanged, and in particular no id is used up. *)
Theorem exception_only_without_body (now : Z) (req : Request) (st : Store) :
  (status_of (handle now req st).1 = 500 <->
   exists body,
     nullish body /\
     (req = PostUsers body \/
      exists seg key,
        req = PutUser seg body /\ parseInt seg = Some key /\
        is_Some (users st !! key))) /\
  (status_of (handle now req st).1 = 500 -> (handle now req st).2 = st).
Proof.
  destruct req as [| |seg|body|seg body|seg]; simpl.
  - split; [split|reflexivity]; [discriminate|].
    intros (b & _ & [H | (s & k & H & _)]); discriminate H.
  - split; [split|reflexivity]; [discriminate|].
    intros (b & _ & [H | (s & k & H & _)]); discriminate H.
  - assert (Hs : status_of (get_user seg st).1 <> 500 /\ (get_user seg st).2 = st).
    { unfold get_user. destruct (parseInt seg) as [key|]; [|split; [discriminate|reflexivity]].
      destruct (users st !! key); split; (discriminate || reflexivity). }
    destruct Hs as [Hs1 Hs2]. split; [split|intros _; exact Hs2].
    + intros H. contradiction.
    + intros (b & _ & [H | (s & k & H & _)]); discriminate H.
  - destruct (validateUserData body) as [v|e] eqn:H.
    + assert (Hs : status_of (post_users now body st).1 <> 500).
      { destruct (isValid v) eqn:Hv.
        - destruct (post_users_valid now st _ _ H Hv) as (n & e & _ & _ & Hp).
          simpl in Hp. rewrite Hp. discriminate.
        - rewrite (post_users_invalid now st _ _ H Hv). discriminate. }
      split; [split|intros H5; contradiction].
      * intros H5. contradiction.
      * intros (b & Hb & [Hreq | (s & k & Hreq & _)]); [|discriminate Hreq].
        injection Hreq as <-.
        rewrite (validateUserData_nullish _ Hb) in H. discriminate H.
    + rewrite (post_users_throw now st _ _ H). simpl.
      split; [split|reflexivity]; [|reflexivity].
      intros _. exists body. split; [|left; reflexivity].
      apply (validateUserData_throw _ _ H).
  - destruct (parseInt seg) as [key|] eqn:Hp.
    2:{ unfold put_user. rewrite Hp. simpl.
        split; [split|reflexivity]; [discriminate|].
        intros (b & _ & [Hreq | (s & k & Hreq & Hp' & _)]); [discriminate Hreq|].
        injection Hreq as <- <-. congruence. }
    destruct (users st !! key) as [u|] eqn:Hu.
    2:{ unfold put_user. rewrite Hp, Hu. simpl.
        split; [split|reflexivity]; [discriminate|].
        intros (b & _ & [Hreq | (s & k & Hreq & Hp' & [u' Hu'])]);
          [discriminate Hreq|].
        injection Hreq as <- <-. congruence. }
    destruct (validateUserData body) as [v|e] eqn:H.
    + assert (Hs : status_of (put_user seg body st).1 <> 500).
      { destruct (isValid v) eqn:Hv.
        - destruct (put_user_valid st _ _ _ _ _ Hp Hu H Hv)
            as (n & e & _ & _ & Hput).
          simpl in Hput. rewrite Hput. discriminate.
        - rewrite (put_user_invalid st _ _ _ _ _ Hp Hu H Hv). discriminate. }
      split; [split|intros H5; contradiction].
      * intros H5. contradiction.
      * intros (b & Hb & [Hreq | (s & k & Hreq & _)]); [discriminate Hreq|].
        injection Hreq as <- <-.
        rewrite (validateUserData_nullish _ Hb) in H. discriminate H.
    + unfold put_user. rewrite Hp, Hu, H. simpl.
      split; [split|reflexivity]; [|reflexivity].
      intros _. exists body. split; [apply (validateUserData_throw _ _ H)|].
      right. exists seg, key. rewrite Hu. eauto.
  - assert (Hs : status_of (delete_user seg st).1 <> 500).
    { unfold delete_user. destruct (parseInt seg) as [key|]; [|discriminate].
      destruct (users st !! key); discriminate. }
    split; [split|intros H5; contradiction].
    + intros H5. contradiction.
    + intros (b & _ & [H | (s & k & H & _)]); discriminate H.
Qed.

Lemma exception_only_without_body_witness :
  let old := {| id := 1; name := lit "Ann"; email := lit "ann@x.com";
                createdAt := 10 |} in
  let st := {| users := {[1 := old]}; nextId := 2 |} in
  (status_of (handle 20 (PostUsers JUndefined) st).1 = 500 /\
   (handle 20 (PostUsers JUndefined) st).2 = st) /\
  (is_Some (users st !! 1) /\
   status_of (handle 21 (PutUser (lit "1") JNull) st).1 = 500) /\
  status_of (handle 22 (PutUser (lit "2") JNull) st).1 = 404.
Proof.
  intros old st. split; [|split].
  - assert (H5 : status_of (handle 20 (PostUsers JUndefined) st).1 = 500)
      by reflexivity.
    split; [exact H5|].
    apply (proj2 (exception_only_without_body 20 (PostUsers JUndefined) st) H5).
  - assert (Hs : is_Some (users st !! 1)) by (exists old; reflexivity).
    split; [exact Hs|].
    apply (proj1 (exception_only_without_body 21 (PutUser (lit "1") JNull) st)).
    exists JNull. split; [right; reflexivity|].
    right. exists (lit "1"), 1. split; [reflexivity|]. split; [reflexivity|exact Hs].
  - reflexivity.
Defined.

(** ** Creating and updating *)

(** Create, then get.  In a reachable store a POST with a valid body answers
    201 with a user whose [id] is the counter's value, whose [name] is the
    trimmed name of the body, whose [email] is the body's email and whose
    [createdAt] is the time of the request; the id was free, every user stored
    before is still there unchanged, and GET on the decimal numeral of the new
    id returns the same user. *)
Theorem create_then_get (reqs : list (Z * Request)) (now : Z)
        (body : JsValue) (v : Validation) :
  let st := (run reqs initial).2 in
  let st' := (post_users now body st).2 in
  validateUserData body = Normal v ->
  isValid v = true ->
  exists n e,
    get_prop body "name" = Normal (JStr n) /\
    get_prop body "email" = Normal (JStr e) /\
    let u := {| id := nextId st; name := trim n; email := e;
                createdAt := now |} in
    (post_users now body st).1 = Sent 201 (BUser u) /\
    nextId st' = nextId st + 1 /\
    users st !! nextId st = None /\
    (forall k, k <> nextId st -> users st' !! k = users st !! k) /\
    get_user (decimal (nextId st)) st' = (Sent 200 (BUser u), st').
Proof.
  intros st st' H Hv.
  destruct (valid_body_fields _ _ H Hv) as (n & e & Hn & He & _ & Hre).
  destruct (post_users_valid now st _ _ H Hv) as (n' & e' & Hn' & He' & Hp).
  rewrite Hn in Hn'. rewrite He in He'.
  injection Hn' as <-. injection He' as <-.
  apply email_regex_test_pattern, email_pattern_no_ws, trim_no_ws in Hre.
  simpl in Hp. rewrite Hre in Hp.
  exists n, e. split; [exact Hn|]. split; [exact He|].
  unfold st'. rewrite Hp. simpl.
  split; [reflexivity|]. split; [reflexivity|]. split; [|split].
  - destruct (users st !! nextId st) as [u0|] eqn:E; [|reflexivity].
    destruct (run_ok reqs initial initial_ok) as [_ Hst].
    destruct (Hst _ _ E) as (_ & Hrange & _). fold st in Hrange. lia.
  - intros k Hk. apply lookup_insert_ne. congruence.
  - unfold get_user. rewrite parseInt_decimal. simpl.
    rewrite lookup_insert_eq. reflexivity.
Qed.

Lemma create_then_get_witness :
  let ann := user_body (JStr (lit " Ann ")) (JStr (lit "ann@x.com")) in
  let bob := user_body (JStr (lit "Bob")) (JStr (lit "bob@y.org")) in
  let st := (run [(10, PostUsers ann)] initial).2 in
  let st' := (post_users 11 bob st).2 in
  validateUserData bob = Normal {| isValid := true; errors := [] |} /\
  get_user (decimal 2) st' =
    (Sent 200 (BUser {| id := 2; name := lit "Bob"; email := lit "bob@y.org";
                        createdAt := 11 |}), st') /\
  users st' !! 1 = users st !! 1.
Proof.
  intros ann bob st st'. split; [reflexivity|].
  destruct (create_then_get [(10, PostUsers ann)] 11 bob
              {| isValid := true; errors := [] |} eq_refl eq_refl)
    as (n & e & Hn & He & _ & _ & _ & Hframe & Hget).
  vm_compute in Hn. vm_compute in He.
  injection Hn as <-. injection He as <-.
  split; [exact Hget|]. apply Hframe. vm_compute. discriminate.
Defined.

(** No uniqueness check.  The answer of a POST depends on its body only, not
    on the store: a valid body is accepted whatever is stored, so sending the
    same valid body twice creates two users with the same name and email
    under two consecutive ids. *)
Theorem duplicates_are_accepted (now1 now2 : Z) (body : JsValue)
        (v : Validation) (st : Store) :
  validateUserData body = Normal v ->
  isValid v = true ->
  exists u1 u2,
    (run [(now1, PostUsers body); (now2, PostUsers body)] st).1 =
      [Sent 201 (BUser u1); Sent 201 (BUser u2)] /\
    id u1 = nextId st /\ id u2 = nextId st + 1 /\
    name u2 = name u1 /\ email u2 = email u1 /\
    let st' := (run [(now1, PostUsers body); (now2, PostUsers body)] st).2 in
    users st' !! id u1 = Some u1 /\ users st' !! id u2 = Some u2.
Proof.
  intros H Hv.
  destruct (post_users_valid now1 st _ _ H Hv) as (n & e & Hn & He & Hp1).
  simpl in Hp1.
  destruct (post_users_valid now2 (post_users now1 body st).2 _ _ H Hv)
    as (n' & e' & Hn' & He' & Hp2).
  rewrite Hn in Hn'. rewrite He in He'.
  injection Hn' as <-. injection He' as <-.
  simpl in Hp2. rewrite Hp1 in Hp2. simpl in Hp2.
  eexists _, _. rewrite !run_cons. cbn [handle run fst snd].
  rewrite Hp1. cbn [fst snd]. rewrite Hp2. cbn [fst snd users].
  split; [reflexivity|]. simpl.
  split; [reflexivity|]. split; [reflexivity|].
  split; [reflexivity|]. split; [reflexivity|]. split.
  - rewrite lookup_insert_ne by lia. apply lookup_insert_eq.
  - apply lookup_insert_eq.
Qed.

Lemma duplicates_are_accepted_witness :
  let ann := user_body (JStr (lit "Ann")) (JStr (lit "ann@x.com")) in
  validateUserData ann = Normal {| isValid := true; errors := [] |} /\
  exists u1 u2,
    (run [(10, PostUsers ann); (11, PostUsers ann)] initial).1 =
      [Sent 201 (BUser u1); Sent 201 (BUser u2)] /\
    id u1 = 1 /\ id u2 = 2 /\ email u2 = email u1.
Proof.
  intros ann. split; [reflexivity|].
  destruct (duplicates_are_accepted 10 11 ann
              {| isValid := true; errors := [] |} initial eq_refl eq_refl)
    as (u1 & u2 & Hrun & H1 & H2 & _ & He & _).
  exists u1, u2. auto.
Defined.

(** PUT is idempotent and read-your-writes.  After a successful update,
    sending the same PUT again gives the same response and the same store, and
    a GET of the same segment returns the user that the PUT returned. *)
Theorem put_is_idempotent (seg : jsstring) (key : Z) (u : User)
        (body : JsValue) (v : Validation) (st : Store) :
  parseInt seg = Some key ->
  users st !! key = Some u ->
  validateUserData body = Normal v ->
  isValid v = true ->
  let r := put_user seg body st in
  put_user seg body r.2 = r /\
  get_user seg r.2 = r.
Proof.
  intros Hp Hu H Hv r.
  destruct (put_user_valid st _ _ _ _ _ Hp Hu H Hv) as (n & e & Hn & He & Hput).
  simpl in Hput. fold r in Hput.
  set (upd := {| id := id u; name := trim n; email := trim e;
                 createdAt := createdAt u |}) in *.
  assert (Hu1 : users r.2 !! key = Some upd)
    by (rewrite Hput; simpl; apply lookup_insert_eq).
  split.
  - destruct (put_user_valid r.2 _ _ _ _ _ Hp Hu1 H Hv)
      as (n' & e' & Hn' & He' & Hput').
    rewrite Hn in Hn'. rewrite He in He'.
    injection Hn' as <-. injection He' as <-.
    simpl in Hput'. rewrite Hput'. rewrite Hput at 3. simpl.
    rewrite Hput. simpl. rewrite insert_insert_eq. reflexivity.
  - unfold get_user. rewrite Hp, Hu1. rewrite Hput. reflexivity.
Qed.

Lemma put_is_idempotent_witness :
  let old := {| id := 1; name := lit "Ann"; email := lit "ann@x.com";
                createdAt := 10 |} in
  let st := {| users := {[1 := old]}; nextId := 2 |} in
  let body := user_body (JStr (lit " Bob ")) (JStr (lit "bob@y.org")) in
  let r := put_user (lit "1") body st in
  status_of r.1 = 200 /\ put_user (lit "1") body r.2 = r /\
  get_user (lit "1") r.2 = r.
Proof.
  intros old st body r. split; [reflexivity|].
  apply (put_is_idempotent (lit "1") 1 old body
           {| isValid := true; errors := [] |} st); reflexivity.
Defined.

(** ** Lenient path segments *)

Section Lenient.

Lemma trim_start_ws_app (w s : jsstring) :
  Forall (fun x => is_ws x = true) w -> trim_start (w ++ s) = trim_start s.
Proof.
  induction 1 as [|x w Hx _ IH]; [reflexivity|]. simpl. rewrite Hx. exact IH.
Qed.

Lemma parseInt_ws_prefix (w s : jsstring) :
  Forall (fun x => is_ws x = true) w -> parseInt (w ++ s) = parseInt s.
Proof. intros Hw. unfold parseInt. rewrite (trim_start_ws_app w s Hw). reflexivity. Qed.

Lemma decimal_digits_app (fuel : nat) :
  forall n acc, decimal_digits fuel n acc = decimal_digits fuel n [] ++ acc.
Proof.
  induction fuel as [|fuel IH]; intros n acc; [reflexivity|].
  rewrite !decimal_digits_step. destruct (n <? 10); [reflexivity|].
  rewrite (IH _ (_ :: acc)), (IH _ [_]), <- app_assoc. reflexivity.
Qed.

Lemma not_digit_radix_10 (c : code_unit) :
  ~ is_decimal_digit c -> radix_digit 10 c = None.
Proof.
  intros Hc. apply radix_digit_10_none.
  destruct ((48 <=? c) && (c <=? 57))%N eqn:E; [|reflexivity].
  apply andb_true_iff in E as [A B]. apply N.leb_le in A, B.
  exfalso. apply Hc. split; assumption.
Qed.

(** Reading stops at the first character that is not a digit. *)
Lemma decimal_nat_read_prefix (n : Z) (c : code_unit) (rest : jsstring) :
  0 <= n -> ~ is_decimal_digit c ->
  read_digits 10 (decimal_nat n ++ c :: rest) false 0 = Some n.
Proof.
  intros Hn Hc. unfold decimal_nat. rewrite <- decimal_digits_app.
  destruct (decimal_digits_read _ n (c :: rest) 0 false (log2_fuel n Hn))
    as (v & -> & Hv).
  simpl. rewrite (not_digit_radix_10 c Hc), (Hv eq_refl). reflexivity.
Qed.

Lemma decimal_nat_head (n : Z) (c : code_unit) :
  0 < n -> decimal_nat n = [c] -> is_chr "0" c = false.
Proof.
  intros Hn E. pose proof (decimal_nat_read n (Z.lt_le_incl _ _ Hn)) as Hr.
  rewrite E in Hr. unfold is_chr.
  destruct (N.eqb_spec c (N_of_ascii "0")) as [->|]; [|reflexivity].
  vm_compute in Hr. injection Hr as <-. lia.
Qed.

Lemma split_radix_decimal_prefix (n : Z) (c : code_unit) (rest : jsstring) :
  0 < n ->
  split_radix (decimal_nat n ++ c :: rest) = (10, decimal_nat n ++ c :: rest).
Proof.
  intros Hn. pose proof (decimal_nat_digits n) as Hd.
  destruct (decimal_nat n) as [|c0 [|c1 t]] eqn:E.
  - pose proof (decimal_nat_read n (Z.lt_le_incl _ _ Hn)) as Hr.
    rewrite E in Hr. discriminate Hr.
  - simpl. rewrite (decimal_nat_head n c0 Hn E). reflexivity.
  - inversion Hd as [|? ? _ Hd1]; subst. inversion Hd1 as [|? ? Hc1 _]; subst.
    simpl. rewrite !(digit_not_chr _ c1 Hc1) by (simpl; lia).
    rewrite andb_false_r. reflexivity.
Qed.

End Lenient.

(** The segment is parsed leniently.  White space before the number and any
    text after it that starts with a non-digit are ignored: for a positive id
    [k], a segment made of white space, the decimal numeral of [k] and such a
    tail parses to [k], so GET, PUT and DELETE treat it exactly like the plain
    numeral ([/users/12abc] is served as [/users/12]). *)
Theorem trailing_text_is_ignored (k : Z) (w rest : jsstring) (c : code_unit)
        (body : JsValue) (st : Store) :
  0 < k ->
  Forall (fun x => is_ws x = true) w ->
  ~ is_decimal_digit c ->
  let seg := w ++ decimal k ++ c :: rest in
  parseInt seg = Some k /\
  parseInt (w ++ decimal k) = Some k /\
  get_user seg st = get_user (decimal k) st /\
  put_user seg body st = put_user (decimal k) body st /\
  delete_user seg st = delete_user (decimal k) st.
Proof.
  intros Hk Hw Hc seg.
  assert (Hseg : parseInt seg = Some k).
  { unfold seg. rewrite (parseInt_ws_prefix w _ Hw).
    unfold decimal. destruct (Z.ltb_spec k 0) as [Hneg|_]; [lia|].
    unfold parseInt.
    pose proof (decimal_nat_digits k) as Hd.
    destruct (decimal_nat k) as [|c0 t] eqn:E.
    - pose proof (decimal_nat_read k (Z.lt_le_incl _ _ Hk)) as Hr.
      rewrite E in Hr. discriminate Hr.
    - inversion Hd as [|? ? Hc0 _]; subst.
      change ((c0 :: t) ++ c :: rest) with (c0 :: (t ++ c :: rest)).
      rewrite trim_start_head by (apply digit_not_ws, Hc0).
      rewrite (split_sign_digits c0 _ Hc0). cbv beta iota.
      change (c0 :: (t ++ c :: rest)) with ((c0 :: t) ++ c :: rest).
      rewrite <- E, (split_radix_decimal_prefix k c rest Hk).
      rewrite (decimal_nat_read_prefix k c rest (Z.lt_le_incl _ _ Hk) Hc).
      f_equal. lia. }
  split; [exact Hseg|].
  split; [rewrite (parseInt_ws_prefix w _ Hw); apply parseInt_decimal|].
  unfold get_user, put_user, delete_user.
  rewrite Hseg, parseInt_decimal. auto.
Qed.

Lemma trailing_text_is_ignored_witness :
  let old := {| id := 12; name := lit "Ann"; email := lit "ann@x.com";
                createdAt := 10 |} in
  let st := {| users := {[12 := old]}; nextId := 13 |} in
  lit " 12abc" = lit " " ++ decimal 12 ++ lit "abc" /\
  parseInt (lit " 12abc") = Some 12 /\
  get_user (lit " 12abc") st = (Sent 200 (BUser old), st).
Proof.
  intros old st. split; [reflexivity|].
  destruct (trailing_text_is_ignored 12 (lit " ") (lit "bc") (N_of_ascii "a")
              JUndefined st) as (Hp & _ & Hg & _).
  - lia.
  - repeat constructor.
  - unfold is_decimal_digit. simpl. lia.
  - split; [exact Hp|]. etransitivity; [exact Hg|]. reflexivity.
Defined.

(** ** Listing the users *)

Section Listing.

#[local] Instance key_le_total : Total key_le.
Proof. intros a b. unfold key_le. lia. Qed.

#[local] Instance key_le_trans : Transitive key_le.
Proof. intros a b c. unfold key_le. lia. Qed.

Lemma sorted_pairs_perm (m : gmap Z User) :
  merge_sort key_le (map_to_list m) ≡ₚ map_to_list m.
Proof. apply merge_sort_Permutation. Qed.

Lemma elem_of_sorted_pairs (m : gmap Z User) (k : Z) (u : User) :
  (k, u) ∈ merge_sort key_le (map_to_list m) <-> m !! k = Some u.
Proof. rewrite sorted_pairs_perm. apply elem_of_map_to_list. Qed.

Lemma elem_of_object_values (m : gmap Z User) (u : User) :
  u ∈ object_values m <-> exists k, m !! k = Some u.
Proof.
  unfold object_values. rewrite list_elem_of_fmap. split.
  - intros ([k u'] & -> & H). exists k. apply elem_of_sorted_pairs, H.
  - intros [k H]. exists (k, u). split; [reflexivity|].
    apply elem_of_sorted_pairs, H.
Qed.

Lemma length_object_values (m : gmap Z User) :
  length (object_values m) = size m.
Proof.
  unfold object_values.
  rewrite length_fmap, sorted_pairs_perm. apply length_map_to_list.
Qed.

Lemma sorted_le_nodup_lt (l : list Z) :
  StronglySorted Z.le l -> NoDup l -> StronglySorted Z.lt l.
Proof.
  induction 1 as [|x l Hl IH Hx]; intros Hnd; constructor.
  - apply IH. apply NoDup_cons in Hnd as [_ Hnd]. exact Hnd.
  - apply NoDup_cons in Hnd as [Hnotin _].
    apply Forall_forall. intros y Hy.
    rewrite Forall_forall in Hx. specialize (Hx y Hy).
    assert (x <> y) by (intros ->; contradiction). lia.
Qed.

(** The keys of the listed pairs ascend strictly. *)
Lemma sorted_pairs_keys (m : gmap Z User) :
  StronglySorted Z.lt (merge_sort key_le (map_to_list m)).*1.
Proof.
  apply sorted_le_nodup_lt.
  - apply Sorted_StronglySorted; [intros a b c; lia|].
    apply (Sorted_fmap fst key_le Z.le); [intros x y H; exact H|].
    apply Sorted_merge_sort. apply _.
  - rewrite sorted_pairs_perm. apply NoDup_fst_map_to_list.
Qed.

Lemma sorted_snoc_all {A} (R : relation A) (l : list A) (x : A) :
  Sorted R l -> Forall (fun y => R y x) l -> Sorted R (l ++ [x]).
Proof.
  induction 1 as [|a l Hl IH Ha]; intros Hall; simpl.
  - repeat constructor.
  - apply Forall_cons in Hall as [Hax Hall]. constructor; [auto|].
    destruct Ha as [|b l Hab]; simpl; constructor; assumption.
Qed.

(** Inserting under a key above all the others appends to the listing. *)
Lemma object_values_insert_max (m : gmap Z User) (k : Z) (u : User) :
  (forall k' u', m !! k' = Some u' -> k' < k) ->
  object_values (<[k := u]> m) = object_values m ++ [u].
Proof.
  intros Hmax.
  assert (Hfresh : m !! k = None).
  { destruct (m !! k) as [u0|] eqn:E; [|reflexivity].
    specialize (Hmax k u0 E). lia. }
  unfold object_values.
  change [u] with ([(k, u)].*2). rewrite <- fmap_app. f_equal.
  apply (Sorted_unique_strong key_le).
  - intros [k1 u1] [k2 u2] H1 H2 H12 H21. unfold key_le in H12, H21.
    simpl in H12, H21. assert (k1 = k2) by lia. subst k2.
    apply elem_of_sorted_pairs in H1.
    assert (H2' : <[k := u]> m !! k1 = Some u2).
    { apply elem_of_app in H2 as [H2 | H2].
      - apply elem_of_sorted_pairs in H2.
        rewrite lookup_insert_ne; [exact H2|].
        specialize (Hmax k1 u2 H2). lia.
      - apply list_elem_of_singleton in H2. injection H2 as -> ->.
        apply lookup_insert_eq. }
    congruence.
  - apply Sorted_merge_sort. apply _.
  - apply sorted_snoc_all; [apply Sorted_merge_sort; apply _|].
    apply Forall_forall. intros [k' u'] H.
    apply elem_of_sorted_pairs in H. unfold key_le. simpl.
    specialize (Hmax k' u' H). lia.
  - rewrite !sorted_pairs_perm, (map_to_list_insert m k u Hfresh).
    apply Permutation_cons_append.
Qed.

End Listing.

(** [GET /users] lists the store.  In a reachable store the request answers
    200 without changing the store, and the list it returns holds exactly the
    stored users, each once, in strictly ascending order of [id]. *)
Theorem users_list_is_the_store (reqs : list (Z * Request)) :
  let st := (run reqs initial).2 in
  let r := get_users st in
  r.2 = st /\ status_of r.1 = 200 /\
  (forall u, u ∈ listed r.1 <-> users st !! id u = Some u) /\
  length (listed r.1) = size (users st) /\
  StronglySorted Z.lt (id <$> listed r.1).
Proof.
  intros st r. destruct (run_ok reqs initial initial_ok) as [_ Hst].
  fold st in Hst. simpl.
  split; [reflexivity|]. split; [reflexivity|]. split; [|split].
  - intros u. rewrite elem_of_object_values. split.
    + intros [k Hk]. destruct (Hst k u Hk) as (-> & _). exact Hk.
    + intros H. exists (id u). exact H.
  - apply length_object_values.
  - unfold object_values.
    replace (id <$> (merge_sort key_le (map_to_list (users st))).*2)
      with (merge_sort key_le (map_to_list (users st))).*1
      by (rewrite <- list_fmap_compose; apply Forall_fmap_ext, Forall_forall;
          intros [k u] H; apply elem_of_sorted_pairs in H;
          destruct (Hst k u H) as (Hid & _); simpl; congruence).
    apply sorted_pairs_keys.
Qed.

Lemma users_list_is_the_store_witness :
  let ann := user_body (JStr (lit "Ann")) (JStr (lit "ann@x.com")) in
  let bob := user_body (JStr (lit "Bob")) (JStr (lit "bob@y.org")) in
  let reqs := [(10, PostUsers ann); (11, PostUsers bob);
               (12, PostUsers ann); (13, DeleteUser (lit "2"))] in
  let st := (run reqs initial).2 in
  let u3 := {| id := 3; name := lit "Ann"; email := lit "ann@x.com";
               createdAt := 12 |} in
  id <$> listed (get_users st).1 = [1; 3] /\
  users st !! id u3 = Some u3 /\
  u3 ∈ listed (get_users st).1.
Proof.
  intros ann bob reqs st u3.
  split; [vm_compute; reflexivity|].
  assert (H3 : users st !! id u3 = Some u3) by (vm_compute; reflexivity).
  split; [exact H3|].
  apply (proj1 (proj2 (proj2 (users_list_is_the_store reqs))) u3). exact H3.
Defined.

(** A create appends to the listing.  In a reachable store, after a POST with
    a valid body [GET /users] returns the list it returned before followed by
    the user just created. *)
Theorem create_appends_to_list (reqs : list (Z * Request)) (now : Z)
        (body : JsValue) (v : Validation) :
  let st := (run reqs initial).2 in
  validateUserData body = Normal v ->
  isValid v = true ->
  exists u,
    (post_users now body st).1 = Sent 201 (BUser u) /\
    listed (get_users (post_users now body st).2).1 =
      listed (get_users st).1 ++ [u].
Proof.
  intros st H Hv.
  destruct (post_users_valid now st _ _ H Hv) as (n & e & _ & _ & Hp).
  simpl in Hp. rewrite Hp. eexists. split; [reflexivity|]. simpl.
  apply object_values_insert_max. intros k' u' Hk'.
  destruct (run_ok reqs initial initial_ok) as [_ Hst]. fold st in Hst.
  destruct (Hst k' u' Hk') as (_ & Hrange & _). lia.
Qed.

Lemma create_appends_to_list_witness :
  let ann := user_body (JStr (lit "Ann")) (JStr (lit "ann@x.com")) in
  let bob := user_body (JStr (lit "Bob")) (JStr (lit "bob@y.org")) in
  let reqs := [(10, PostUsers ann); (11, PostUsers ann);
               (12, DeleteUser (lit "1"))] in
  let st := (run reqs initial).2 in
  validateUserData bob = Normal {| isValid := true; errors := [] |} /\
  id <$> listed (get_users st).1 = [2] /\
  exists u,
    id u = 3 /\
    listed (get_users (post_users 13 bob st).2).1 =
      listed (get_users st).1 ++ [u].
Proof.
  intros ann bob reqs st.
  split; [reflexivity|]. split; [vm_compute; reflexivity|].
  destruct (create_appends_to_list reqs 13 bob
              {| isValid := true; errors := [] |} eq_refl eq_refl)
    as (u & Hu & Hl).
  exists u. split; [|exact Hl].
  vm_compute in Hu. injection Hu as <-. reflexivity.
Defined.

(** A delete takes one user off the listing.  In a reachable store, after a
    DELETE that removed the user at [key], [GET /users] returns exactly the
    users it returned before except the one whose [id] is [key], and one user
    fewer. *)
Theorem delete_removes_from_list (reqs : list (Z * Request)) (seg : jsstring)
        (key : Z) (u0 : User) :
  let st := (run reqs initial).2 in
  let st' := (delete_user seg st).2 in
  parseInt seg = Some key ->
  users st !! key = Some u0 ->
  (forall u, u ∈ listed (get_users st').1 <->
             u ∈ listed (get_users st).1 /\ id u <> key) /\
  S (length (listed (get_users st').1)) = length (listed (get_users st).1).
Proof.
  intros st st' Hp Hu.
  destruct (run_ok reqs initial initial_ok) as [_ Hst]. fold st in Hst.
  assert (Hd : st' = {| users := delete key (users st); nextId := nextId st |})
    by (unfold st', delete_user; rewrite Hp, Hu; reflexivity).
  rewrite Hd. simpl. split.
  - intros u. rewrite !elem_of_object_values. split.
    + intros [k Hk]. apply lookup_delete_Some in Hk as [Hne Hk].
      destruct (Hst k u Hk) as (Hid & _). split; [eauto | congruence].
    + intros [[k Hk] Hne]. exists k.
      destruct (Hst k u Hk) as (Hid & _).
      apply lookup_delete_Some. split; [congruence | exact Hk].
  - rewrite !length_object_values.
    rewrite map_size_delete_Some by (rewrite Hu; eauto).
    assert (size (users st) <> 0%nat); [|lia].
    intros Hz. apply map_size_empty_iff in Hz. rewrite Hz in Hu.
    rewrite lookup_empty in Hu. discriminate Hu.
Qed.

Lemma delete_removes_from_list_witness :
  let ann := user_body (JStr (lit "Ann")) (JStr (lit "ann@x.com")) in
  let reqs := [(10, PostUsers ann); (11, PostUsers ann)] in
  let st := (run reqs initial).2 in
  let st' := (delete_user (lit "1") st).2 in
  id <$> listed (get_users st).1 = [1; 2] /\
  id <$> listed (get_users st').1 = [2] /\
  S (length (listed (get_users st').1)) = length (listed (get_users st).1).
Proof.
  intros ann reqs st st'.
  split; [vm_compute; reflexivity|]. split; [vm_compute; reflexivity|].
  apply (delete_removes_from_list reqs (lit "1") 1
           {| id := 1; name := lit "Ann"; email := lit "ann@x.com";
              createdAt := 10 |} eq_refl).
  vm_compute. reflexivity.
Defined.

(** ** Accounting *)

Section Accounting.

Lemma answered_cons (code : Z) (o : Outcome) (os : list Outcome) :
  answered code (o :: os) =
    (if status_of o =? code then 1 else 0) + answered code os.
Proof.
  unfold answered. simpl. destruct (status_of o =? code); simpl length; lia.
Qed.

(** One request: the number of stored users grows by one on a 201, shrinks by
    one on a 204, and the counter grows by one on a 201. *)
Lemma handle_accounting (now : Z) (req : Request) (st : Store) :
  store_ok st ->
  let o := (handle now req st).1 in
  let st' := (handle now req st).2 in
  Z.of_nat (size (users st')) =
    Z.of_nat (size (users st))
    + (if status_of o =? 201 then 1 else 0)
    - (if status_of o =? 204 then 1 else 0) /\
  nextId st' = nextId st + (if status_of o =? 201 then 1 else 0).
Proof.
  intros [Hn Hst].
  destruct req as [| |seg|body|seg body|seg]; simpl.
  - simpl; lia.
  - simpl; lia.
  - unfold get_user. destruct (parseInt seg) as [key|]; [|simpl; lia].
    destruct (users st !! key); simpl; lia.
  - destruct (validateUserData body) as [v|e] eqn:H;
      [|rewrite (post_users_throw now st _ _ H); simpl; lia].
    destruct (isValid v) eqn:Hv;
      [|rewrite (post_users_invalid now st _ _ H Hv); simpl; lia].
    destruct (post_users_valid now st _ _ H Hv) as (n & e & _ & _ & Hp).
    simpl in Hp. rewrite Hp. simpl.
    rewrite map_size_insert_None; [lia|].
    destruct (users st !! nextId st) as [u0|] eqn:E; [|reflexivity].
    destruct (Hst _ _ E) as (_ & Hrange & _). lia.
  - destruct (parseInt seg) as [key|] eqn:Hp;
      [|unfold put_user; rewrite Hp; simpl; lia].
    destruct (users st !! key) as [u0|] eqn:Hu;
      [|unfold put_user; rewrite Hp, Hu; simpl; lia].
    destruct (validateUserData body) as [v|e] eqn:H;
      [|unfold put_user; rewrite Hp, Hu, H; simpl; lia].
    destruct (isValid v) eqn:Hv;
      [|rewrite (put_user_invalid st _ _ _ _ _ Hp Hu H Hv);
        simpl; lia].
    destruct (put_user_valid st _ _ _ _ _ Hp Hu H Hv) as (n & e & _ & _ & Hput).
    simpl in Hput. rewrite Hput. simpl.
    rewrite map_size_insert_Some by (rewrite Hu; eauto). lia.
  - unfold delete_user.
    destruct (parseInt seg) as [key|]; [|simpl; lia].
    destruct (users st !! key) as [u0|] eqn:Hu; [|simpl; lia].
    simpl. rewrite map_size_delete_Some by (rewrite Hu; eauto).
    assert (size (users st) <> 0%nat); [|lia].
    intros Hz. apply map_size_empty_iff in Hz. rewrite Hz in Hu.
    rewrite lookup_empty in Hu. discriminate Hu.
Qed.

Lemma run_accounting (reqs : list (Z * Request)) :
  forall st,
    store_ok st ->
    Z.of_nat (size (users (run reqs st).2)) =
      Z.of_nat (size (users st))
      + answered 201 (run reqs st).1 - answered 204 (run reqs st).1 /\
    nextId (run reqs st).2 = nextId st + answered 201 (run reqs st).1.
Proof.
  induction reqs as [|[now req] rest IH]; intros st Hst.
  - simpl. unfold answered. simpl. lia.
  - rewrite run_cons. cbn [fst snd]. rewrite !answered_cons.
    destruct (handle_accounting now req st Hst) as [Hs Hn].
    destruct (IH _ (handle_ok now req st Hst)) as [IHs IHn].
    rewrite IHs, IHn, Hs, Hn. lia.
Qed.

End Accounting.

(** The books balance.  After any sequence of requests from the initial
    store, the number of stored users is the number of 201 responses minus
    the number of 204 responses, and the counter is one more than the number
    of 201 responses: every successful create adds one user and uses one id,
    every successful delete removes one user, and nothing else changes either
    number. *)
Theorem store_accounting (reqs : list (Z * Request)) :
  let os := (run reqs initial).1 in
  let st := (run reqs initial).2 in
  Z.of_nat (size (users st)) = answered 201 os - answered 204 os /\
  nextId st = 1 + answered 201 os /\
  answered 204 os <= answered 201 os.
Proof.
  intros os st.
  destruct (run_accounting reqs initial initial_ok) as [Hs Hn].
  fold os st in Hs, Hn. simpl in Hs, Hn. rewrite map_size_empty in Hs.
  split; [lia|]. split; [exact Hn | lia].
Qed.
